(** * The U-shaped network assembly of [unets/unet.py]

    A shallow embedding of [checkpointed], [Unet.__init__] and
    [Unet.forward].  Python lists are lists, Python integers are [Z],
    the configuration dictionary is a [gmap] with string keys, and the
    exceptions and side effects of the two methods live in a small
    state-and-exception monad.  The down/up block implementations, the
    tensors and [torch] itself are parameters of the development. *)

From stdpp Require Import gmap strings list fin_maps pretty.

Local Open Scope Z_scope.

(** ** Python list primitives *)

Module Py.

(** The exceptions the modelled code can raise. *)
Inductive Exc :=
| ValueError (msg : string)
| TypeError (msg : string)
| KeyError (key : string)
| IndexError (msg : string).

(** [slice.indices(len)] for a non-zero [step]: the adjusted start and
    stop of [xs[start:stop:step]] on a list of length [len]. *)
Definition adjust_bound (len step lower upper : Z) (dflt : Z) (b : option Z) : Z :=
  match b with
  | None => dflt
  | Some i => if i <? 0 then Z.max (i + len) lower else Z.min i upper
  end.

Definition slice_indices (len : Z) (start stop : option Z) (step : Z) : Z * Z :=
  let lower := if step <? 0 then -1 else 0 in
  let upper := if step <? 0 then len - 1 else len in
  (adjust_bound len step lower upper (if step <? 0 then upper else lower) start,
   adjust_bound len step lower upper (if step <? 0 then lower else upper) stop).

(** Number of elements selected by an adjusted slice. *)
Definition slice_length (start stop step : Z) : Z :=
  if step <? 0 then
    if stop <? start then (start - stop - 1) `div` (- step) + 1 else 0
  else
    if start <? stop then (stop - start - 1) `div` step + 1 else 0.

(** The copy loop of a slice: [n] elements from index [cur], [step]
    apart. *)
Fixpoint gather {A} (xs : list A) (cur step : Z) (n : nat) : list A :=
  match n with
  | O => []
  | S n' =>
      match xs !! Z.to_nat cur with
      | Some x => x :: gather xs (cur + step) step n'
      | None => gather xs (cur + step) step n'
      end
  end.

(** [xs[start:stop:step]]; [step] is never zero in the modelled code
    (Python raises [ValueError] there), the model selects nothing. *)
Definition slice {A} (start stop : option Z) (step : Z) (xs : list A) : list A :=
  if step =? 0 then [] else
  let '(s, e) := slice_indices (Z.of_nat (length xs)) start stop step in
  gather xs s step (Z.to_nat (slice_length s e step)).

(** [xs[i]] with Python's negative indices. *)
Definition getitem {A} (xs : list A) (i : Z) : Exc + A :=
  let j := if i <? 0 then i + Z.of_nat (length xs) else i in
  if (j <? 0) || (Z.of_nat (length xs) <=? j)
  then inl (IndexError "list index out of range")
  else match xs !! Z.to_nat j with
       | Some x => inr x
       | None => inl (IndexError "list index out of range")
       end.

(** [zip(xs, ys, zs)]: stops at the shortest argument. *)
Fixpoint zip3 {A B C} (xs : list A) (ys : list B) (zs : list C) : list (A * B * C) :=
  match xs, ys, zs with
  | x :: xs', y :: ys', z :: zs' => (x, y, z) :: zip3 xs' ys' zs'
  | _, _, _ => []
  end.

(** [enumerate(xs)]. *)
Definition enumerate {A} (xs : list A) : list (nat * A) :=
  zip (seq 0 (length xs)) xs.

(** [str(i)] for an integer, as inserted by [str.format] and f-strings. *)
Definition str (i : Z) : string := pretty i.

End Py.

(** ** State, exceptions and a probe log

    A computation reads and writes a state [S], may raise a Python
    exception, and records the events [E] it emits, in order.  A raised
    exception keeps the state and the events reached so far. *)

Definition M (S E A : Type) : Type := S → (Py.Exc + A) * S * list E.

Definition ret {S E A} (a : A) : M S E A := λ s, (inr a, s, []).

Definition bind {S E A B} (m : M S E A) (f : A → M S E B) : M S E B :=
  λ s, match m s with
       | (inl e, s1, l1) => (inl e, s1, l1)
       | (inr a, s1, l1) => let '(r, s2, l2) := f a s1 in (r, s2, l1 ++ l2)
       end.

Definition raise {S E A} (e : Py.Exc) : M S E A := λ s, (inl e, s, []).

Definition emit {S E} (ev : E) : M S E unit := λ s, (inr tt, s, [ev]).

Definition lift {S E A} (r : Py.Exc + A) : M S E A := λ s, (r, s, []).

Notation "'let*' x := m 'in' k" := (bind m (λ x, k))
  (at level 10, x pattern, m at level 100, k at level 200, only parsing).

(** A [for] loop that rebinds an accumulator. *)
Fixpoint foldM {S E A B} (body : A → B → M S E A) (acc : A) (xs : list B) : M S E A :=
  match xs with
  | [] => ret acc
  | x :: xs' => let* acc' := body acc x in foldM body acc' xs'
  end.

Definition result {S E A} (r : (Py.Exc + A) * S * list E) : Py.Exc + A := r.1.1.
Definition final {S E A} (r : (Py.Exc + A) * S * list E) : S := r.1.2.
Definition events {S E A} (r : (Py.Exc + A) * S * list E) : list E := r.2.

(** ** Block classes, configurations and block instances *)

(** A subclass of [torch.nn.Module]: a class of the block library, named,
    or the class [checkpointed] derives from another one. *)
Inductive ModuleClass :=
| BaseClass (name : string)
| Checkpointed (cls : ModuleClass).

(** The values stored in a configuration dictionary. *)
Inductive SetupVal :=
| VClass (c : ModuleClass)
| VBool (b : bool).

Definition fat_setup : gmap string SetupVal :=
  <["gate" := VClass (BaseClass "PReLU")]> (
  <["norm" := VClass (BaseClass "InstanceNorm2d")]> (
  <["upsample" := VClass (BaseClass "TrivialUpsample")]> (
  <["downsample" := VClass (BaseClass "TrivialDownsample")]> (
  <["down_block" := VClass (BaseClass "UnetDownBlock")]> (
  <["up_block" := VClass (BaseClass "UnetUpBlock")]> (
  <["dropout" := VClass (BaseClass "NoOp")]> (
  <["padding" := VBool false]> (
  <["bias" := VBool true]> ∅)))))))).

Definition thin_setup : gmap string SetupVal :=
  <["gate" := VClass (BaseClass "PReLU")]> (
  <["norm" := VClass (BaseClass "InstanceNorm2d")]> (
  <["upsample" := VClass (BaseClass "TrivialUpsample")]> (
  <["downsample" := VClass (BaseClass "TrivialDownsample")]> (
  <["down_block" := VClass (BaseClass "ThinUnetDownBlock")]> (
  <["up_block" := VClass (BaseClass "ThinUnetUpBlock")]> (
  <["dropout" := VClass (BaseClass "NoOp")]> (
  <["padding" := VBool false]> (
  <["bias" := VBool true]> ∅)))))))).

(** The arguments [Unet.__init__] passes to a block constructor. *)
Inductive CtorArgs :=
| DownArgs (d_in d_out size : Z) (name : string)
           (setup : gmap string SetupVal) (is_first : bool)
| UpArgs (d_bot d_hor d_out size : Z) (name : string)
         (setup : gmap string SetupVal).

(** A block instance: its class and the arguments it was built from. *)
Record Module := { m_cls : ModuleClass; m_args : CtorArgs }.

(** The class whose [__init__] and innermost [forward] an instance runs:
    [Checkpointed] overrides [forward] only. *)
Fixpoint base_name (cls : ModuleClass) : string :=
  match cls with
  | BaseClass name => name
  | Checkpointed c => base_name c
  end.

(** Declared output channel count of a block instance. *)
Definition channel_out (a : CtorArgs) : Z :=
  match a with
  | DownArgs _ d_out _ _ _ _ => d_out
  | UpArgs _ _ d_out _ _ _ => d_out
  end.

(** A parameter tensor as [Unet.__init__] sees it. *)
Record Param := { numel : Z; p_requires_grad : bool }.

(** A positional or keyword argument of a [forward] call. *)
Inductive Arg (T : Type) :=
| ATensor (t : T)
| AOther (v : Z).
Arguments ATensor {T} t.
Arguments AOther {T} v.

(** The external collaborators: 4-dimensional tensors, the state [Env]
    block code reads and writes (parameter values, generator state), and
    for each class of the block library its [forward] and the parameters
    its constructor registers. *)
Class Blocks := {
  Tensor : Type;
  Env : Type;
  size : Tensor → Z → Z;
  requires_grad : Tensor → bool;
  block_forward :
    string → CtorArgs → list (Arg Tensor) → list (string * Arg Tensor) →
    Env → Tensor * Env;
  block_parameters : string → CtorArgs → list Param;
}.

(** ** [checkpointed] *)

(** What a [forward] call emits: [Called m args out] when the call
    of a block instance [m] on [args] returns [out], [Recompute args] when
    [torch.utils.checkpoint.checkpoint] is entered with [args]. *)
Inductive Event `{Blocks} :=
| Called (m : Module) (args : list (Arg Tensor)) (out : Tensor)
| Recompute (args : list (Arg Tensor)).

Section Forward.
Context `{Blocks}.

Definition Kwargs : Type := list (string * Arg Tensor).
Definition Forward : Type := list (Arg Tensor) → Kwargs → M Env Event Tensor.

(** [torch.is_tensor(arg) and arg.requires_grad]. *)
Definition tracks_grad (arg : Arg Tensor) : bool :=
  match arg with
  | ATensor t => requires_grad t
  | AOther _ => false
  end.

(** [torch.utils.checkpoint.checkpoint] applied to [fn] and the arguments, as far as
    the forward pass goes: it runs [fn] on the arguments once and
    returns what [fn] returns; the activations [fn] would retain are
    dropped and rebuilt in the backward pass, which is not modelled. *)
Definition checkpoint (fn : Forward) : Forward :=
  λ args kwargs, let* _ := emit (Recompute args) in fn args kwargs.

(** [Checkpointed.forward] for the class [checkpointed(cls)] returns,
    given [super_fwd], the forward of [cls] bound to the instance. *)
Definition Checkpointed_forward (super_fwd : Forward) : Forward :=
  λ args kwargs,
    if existsb tracks_grad args
    then checkpoint super_fwd args kwargs
    else super_fwd args kwargs.

(** The [forward] method a class resolves to, bound to an instance
    built from [self]. *)
Fixpoint class_forward (cls : ModuleClass) (self : CtorArgs) : Forward :=
  match cls with
  | BaseClass name =>
      λ args kwargs e,
        let '(out, e') := block_forward name self args kwargs e in
        (inr out, e', [])
  | Checkpointed c => Checkpointed_forward (class_forward c self)
  end.

(** Calling a block instance: [nn.Module.__call__] runs its [forward]. *)
Definition call (layer : Module) (args : list (Arg Tensor)) : M Env Event Tensor :=
  let* out := class_forward (m_cls layer) (m_args layer) args [] in
  let* _ := emit (Called layer args out) in
  ret out.

(** [self.parameters()] restricted to one block instance. *)
Definition module_parameters (m : Module) : list Param :=
  block_parameters (base_name (m_cls m)) (m_args m).

End Forward.

(** ** [Unet] *)

Record Unet := {
  up : list Z;
  down : list Z;
  in_features : Z;
  path_down : list Module;
  path_up : list Module;
  n_params : Z;
}.

Section Construction.
Context `{Blocks}.

(** Construction emits the block instances it creates, in order. *)
Definition Init : Type → Type := M unit Module.

(** [setup[key]]. *)
Definition getkey (setup : gmap string SetupVal) (key : string) : Init SetupVal :=
  match setup !! key with
  | Some v => ret v
  | None => raise (Py.KeyError key)
  end.

(** Truth value of a configuration entry. *)
Definition truthy (v : SetupVal) : bool :=
  match v with
  | VBool b => b
  | VClass _ => true
  end.

(** ['checkpointed' in setup and setup['checkpointed']]. *)
Definition wants_checkpoint (setup : gmap string SetupVal) : bool :=
  match setup !! "checkpointed" with
  | Some v => truthy v
  | None => false
  end.

(** [checkpointed(cls)]: every [VClass] is a subclass of
    [torch.nn.Module], so the assertion holds for classes; [issubclass]
    rejects a value that is not a class. *)
Definition checkpointed (cls : SetupVal) : Init SetupVal :=
  match cls with
  | VClass c => ret (VClass (Checkpointed c))
  | VBool _ => raise (Py.TypeError "issubclass() arg 1 must be a class")
  end.

(** [cls(...)]: instantiate a block. *)
Definition new_block (cls : SetupVal) (args : CtorArgs) : Init Module :=
  match cls with
  | VClass c =>
      let block := {| m_cls := c; m_args := args |} in
      let* _ := emit block in ret block
  | VBool _ => raise (Py.TypeError "'bool' object is not callable")
  end.

(** [down_dims[-2::-1]], also [features[-2::-1]]. *)
Definition mirror {A} (xs : list A) : list A :=
  Py.slice (Some (-2)) None (-1) xs.

(** [self.parameters()]: the parameters of the registered submodules,
    [path_down] before [path_up]. *)
Definition parameters (path_down path_up : list Module) : list Param :=
  flat_map module_parameters (path_down ++ path_up).

Definition Unet_init (in_features : Z) (up down : option (list Z))
    (size : Z) (setup : gmap string SetupVal) : Init Unet :=
  match down, up with
  | None, _ => raise (Py.TypeError "object of type 'NoneType' has no len()")
  | Some _, None => raise (Py.TypeError "object of type 'NoneType' has no len()")
  | Some down, Some up =>
    if negb (length down =? length up + 1)%nat then
      raise (Py.ValueError "`down` must be 1 item longer than `up`")
    else
      let* DownBlock := getkey setup "down_block" in
      let* UpBlock := getkey setup "up_block" in
      let* (UpBlock, DownBlock) :=
        (if wants_checkpoint setup
         then
           let* UpBlock := checkpointed UpBlock in
           let* DownBlock := checkpointed DownBlock in
           ret (UpBlock, DownBlock)
         else ret (UpBlock, DownBlock)) in
      let down_dims := [in_features] ++ down in
      let* path_down :=
        foldM (λ path_down '(i, (d_in, d_out)),
                 let* block :=
                   new_block DownBlock
                     (DownArgs d_in d_out size ("down_" +:+ pretty i) setup
                               (i =? 0)%nat) in
                 ret (path_down ++ [block]))
              []
              (Py.enumerate (zip (Py.slice None (Some (-1)) 1 down_dims)
                                 (Py.slice (Some 1) None 1 down_dims))) in
      let* d_last := lift (Py.getitem down (-1)) in
      let bot_dims := [d_last] ++ up in
      let hor_dims := mirror down_dims in
      let* path_up :=
        foldM (λ path_up '(i, (d_bot, d_hor, d_out)),
                 let* block :=
                   new_block UpBlock
                     (UpArgs d_bot d_hor d_out size ("up_" +:+ pretty i) setup) in
                 ret (path_up ++ [block]))
              []
              (Py.enumerate (Py.zip3 bot_dims hor_dims up)) in
      let n_params :=
        fold_left (λ n param, n + numel param) (parameters path_down path_up) 0 in
      ret {| up := up; down := down; in_features := in_features;
             path_down := path_down; path_up := path_up;
             n_params := n_params |}
  end.

(** Body of the encoder loop: [features.append(layer(features[-1]))]. *)
Definition encode_step (features : list Tensor) (layer : Module)
    : M Env Event (list Tensor) :=
  let* top := lift (Py.getitem features (-1)) in
  let* out := call layer [ATensor top] in
  ret (features ++ [out]).

(** The encoder half of [forward]: the activation trace [features]. *)
Definition encode (self : Unet) (inp : Tensor) : M Env Event (list Tensor) :=
  foldM encode_step [inp] (path_down self).

(** Body of the decoder loop: [f_bot = layer(f_bot, f_hor)]. *)
Definition decode_step (f_bot : Tensor) (pair : Module * Tensor)
    : M Env Event Tensor :=
  let '(layer, f_hor) := pair in
  call layer [ATensor f_bot; ATensor f_hor].

(** The decoder half of [forward]. *)
Definition decode (self : Unet) (f_bot : Tensor) (features_horizontal : list Tensor)
    : M Env Event Tensor :=
  foldM decode_step f_bot (zip (path_up self) features_horizontal).

Definition forward (self : Unet) (inp : Tensor) : M Env Event Tensor :=
  if negb (size inp 1 =? in_features self) then
    raise (Py.ValueError
             ("Expected " +:+ Py.str (in_features self) +:+
              " feature channels in input, got " +:+ Py.str (size inp 1)))
  else
    let* features := encode self inp in
    let* f_bot := lift (Py.getitem features (-1)) in
    let features_horizontal := mirror features in
    decode self f_bot features_horizontal.

End Construction.

(** ** Vocabulary of the statements *)

(** The block class a valid construction instantiates, given the class
    found in the configuration. *)
Definition block_class (setup : gmap string SetupVal) (c : ModuleClass) : ModuleClass :=
  if wants_checkpoint setup then Checkpointed c else c.

(** The block calls of an event log, in order: instance, positional
    arguments, returned activation. *)
Definition stage_calls `{Blocks} (evs : list Event)
    : list (Module * list (Arg Tensor) * Tensor) :=
  omap (λ ev, match ev with
              | Called m args out => Some (m, args, out)
              | Recompute _ => None
              end) evs.

(** What the innermost [forward] of a block instance computes on [args]
    from the state [e]. *)
Definition block_run `{Blocks} (m : Module) (args : list (Arg Tensor)) (e : Env)
    : Tensor * Env :=
  block_forward (base_name (m_cls m)) (m_args m) args [] e.

(** A recorded call whose output is what the block computes. *)
Definition produced `{Blocks} (c : Module * list (Arg Tensor) * Tensor) : Prop :=
  ∃ e, c.2 = (block_run c.1.1 c.1.2 e).1.

(** A configuration whose two block entries are classes. *)
Definition valid_setup (setup : gmap string SetupVal) : bool :=
  match setup !! "down_block", setup !! "up_block" with
  | Some (VClass _), Some (VClass _) => true
  | _, _ => false
  end.

(** [sub] occurs in [s]. *)
Definition contains (sub s : string) : Prop :=
  ∃ pre post : string, s = pre +:+ sub +:+ post.

(** Total element count of the parameters with gradient tracking on. *)
Definition trainable_numel (ps : list Param) : Z :=
  foldr Z.add 0 (numel <$> filter (λ p, p_requires_grad p = true) ps).

(** Total element count of all parameters. *)
Definition total_numel (ps : list Param) : Z :=
  foldr Z.add 0 (numel <$> ps).

(** ** A probe block library

    Activations that record where they come from, and parameter lists
    that depend on the block class, for running the model on concrete
    configurations.  The state is a pair: how many block calls drew from
    the generator, and the version of the weights. *)

Inductive Probe :=
| PInput (channels : Z) (grad : bool)
| PDown (stage : string) (channels : Z) (x : Probe)
| PUp (stage : string) (channels : Z) (bot hor : Probe)
| POther (channels : Z).

Definition probe_channels (t : Probe) : Z :=
  match t with
  | PInput c _ | PDown _ c _ | PUp _ c _ _ | POther c => c
  end.

Definition probe_forward (name : string) (self : CtorArgs)
    (args : list (Arg Probe)) (kwargs : list (string * Arg Probe))
    (e : nat * Z) : Probe * (nat * Z) :=
  (match self, args with
   | DownArgs _ d_out _ stage _ _, [ATensor x] => PDown stage d_out x
   | UpArgs _ _ d_out _ stage _, [ATensor b; ATensor h] => PUp stage d_out b h
   | _, _ => POther (channel_out self)
   end, (S e.1, e.2)).

(** A convolution weight and a bias per block; the class
    [FixedDownBlock] keeps its weight out of training. *)
Definition probe_parameters (name : string) (self : CtorArgs) : list Param :=
  match self with
  | DownArgs d_in d_out size _ _ _ =>
      [ {| numel := d_in * d_out * size * size;
           p_requires_grad := negb (String.eqb name "FixedDownBlock") |};
        {| numel := d_out; p_requires_grad := true |} ]
  | UpArgs d_bot d_hor d_out size _ _ =>
      [ {| numel := (d_bot + d_hor) * d_out * size * size;
           p_requires_grad := true |};
        {| numel := d_out; p_requires_grad := true |} ]
  end.

Definition probe : Blocks := {|
  Tensor := Probe;
  Env := nat * Z;
  size t i := if i =? 1 then probe_channels t else 1;
  requires_grad t := match t with PInput _ g => g | _ => true end;
  block_forward := probe_forward;
  block_parameters := probe_parameters;
|}.

(** Runs of [m] from states related by [R] cannot be told apart: same
    outcome, same events, related final states. *)
Definition respects {S E A} (R : S → S → Prop) (m : M S E A) : Prop :=
  ∀ s1 s2, R s1 s2 →
    result (m s1) = result (m s2)
    ∧ events (m s1) = events (m s2)
    ∧ R (final (m s1)) (final (m s2)).

(** States that hold the same parameter values. *)
Definition same_params `{Blocks} {P : Type} (params_of : Env → P)
    (e1 e2 : Env) : Prop :=
  params_of e1 = params_of e2.

(** The fat configuration with a down block whose weight is fixed. *)
Definition fixed_setup : gmap string SetupVal :=
  <["down_block" := VClass (BaseClass "FixedDownBlock")]> fat_setup.

(** The three-stage network of the wiring test, over the probe library. *)
Definition example_net : Unet :=
  match result (Unet_init (H := probe) 1 (Some [32; 16]) (Some [16; 32; 64])
                          5 fat_setup tt) with
  | inr net => net
  | inl _ => {| up := []; down := []; in_features := 1;
                path_down := []; path_up := []; n_params := 0 |}
  end.

(** ** Vocabulary of the further properties *)

(** The stage name a block instance was given. *)
Definition block_name (m : Module) : string :=
  match m_args m with
  | DownArgs _ _ _ name _ _ => name
  | UpArgs _ _ _ _ name _ => name
  end.

(** Declared input channel counts of a block, in the order of the
    positional arguments of its [forward]. *)
Definition channels_in (a : CtorArgs) : list Z :=
  match a with
  | DownArgs d_in _ _ _ _ _ => [d_in]
  | UpArgs d_bot d_hor _ _ _ _ => [d_bot; d_hor]
  end.

(** Channel counts of the tensors among positional arguments. *)
Definition arg_channels `{Blocks} (args : list (Arg Tensor)) : list Z :=
  omap (λ a, match a with
             | ATensor t => Some (size t 1)
             | AOther _ => None
             end) args.

(** How many times [checkpointed] was applied to obtain a class. *)
Fixpoint wrap_depth (cls : ModuleClass) : nat :=
  match cls with
  | BaseClass _ => 0
  | Checkpointed c => S (wrap_depth c)
  end.

(** The instance of the underlying block class built from the same
    arguments. *)
Definition unwrapped (m : Module) : Module :=
  {| m_cls := BaseClass (base_name (m_cls m)); m_args := m_args m |}.

(** The network with every block replaced by its unwrapped instance. *)
Definition unwrapped_net (net : Unet) : Unet :=
  {| up := up net; down := down net; in_features := in_features net;
     path_down := unwrapped <$> path_down net;
     path_up := unwrapped <$> path_up net;
     n_params := n_params net |}.

(** Two computations with the same outcome and final state from every
    state; their events may differ. *)
Definition agree {S E A} (m1 m2 : M S E A) : Prop :=
  ∀ s, result (m1 s) = result (m2 s) ∧ final (m1 s) = final (m2 s).

(** Every event a computation emits satisfies [P]. *)
Definition emits {S E A} (P : E → Prop) (m : M S E A) : Prop :=
  ∀ s, Forall P (events (m s)).

Definition is_call `{Blocks} (ev : Event) : Prop :=
  match ev with
  | Called _ _ _ => True
  | Recompute _ => False
  end.

(** Every event [m] emits satisfies [P], and what it returns
    satisfies [Q]. *)
Definition sound {S E A} (P : E → Prop) (Q : A → Prop) (m : M S E A) : Prop :=
  ∀ s, Forall P (events (m s)) ∧ ∀ a, result (m s) = inr a → Q a.

(** The probe library as it behaves with gradient recording switched
    off: no block output tracks gradients. *)
Definition probe_inference : Blocks := {|
  Tensor := Probe;
  Env := nat * Z;
  size t i := if i =? 1 then probe_channels t else 1;
  requires_grad t := match t with PInput _ g => g | _ => false end;
  block_forward := probe_forward;
  block_parameters := probe_parameters;
|}.

(** The three-stage network with checkpointing requested. *)
Definition checkpointed_example_net : Unet :=
  match result (Unet_init (H := probe_inference) 1 (Some [32; 16])
                  (Some [16; 32; 64]) 5
                  (<["checkpointed" := VBool true]> thin_setup) tt) with
  | inr net => net
  | inl _ => {| up := []; down := []; in_features := 1;
                path_down := []; path_up := []; n_params := 0 |}
  end.

(** * Properties *)

(** ** Slices *)

Section Slices.
Context {A : Type}.
Implicit Types xs : list A.

Lemma gather_down xs (n : nat) :
  (n ≤ length xs)%nat →
  Py.gather xs (Z.of_nat n - 1) (-1) n = reverse (take n xs).
Proof.
  induction n as [|n IH]; intros Hn; [done|].
  destruct (lookup_lt_is_Some_2 xs n) as [x Hx]; [lia|].
  rewrite (take_S_r _ _ _ Hx), reverse_snoc. simpl.
  replace (Z.to_nat (Z.of_nat (S n) - 1)) with n by lia.
  rewrite Hx. f_equal.
  replace (Z.of_nat (S n) - 1 + -1) with (Z.of_nat n - 1) by lia.
  apply IH. lia.
Qed.

Lemma gather_up xs (n : nat) : ∀ s : nat,
  (s + n ≤ length xs)%nat →
  Py.gather xs (Z.of_nat s) 1 n = take n (drop s xs).
Proof.
  induction n as [|n IH]; intros s Hn; [done|].
  destruct (lookup_lt_is_Some_2 xs s) as [x Hx]; [lia|].
  simpl. rewrite Nat2Z.id, Hx.
  rewrite (drop_S _ _ _ Hx). simpl. f_equal.
  replace (Z.of_nat s + 1) with (Z.of_nat (S s)) by lia.
  apply IH. lia.
Qed.

(** [xs[-2::-1]] walks back from the element before the last one. *)
Lemma mirror_snoc xs x : mirror (xs ++ [x]) = reverse xs.
Proof.
  unfold mirror, Py.slice, Py.slice_indices, Py.adjust_bound, Py.slice_length.
  rewrite length_app. simpl.
  replace (Z.max (-2 + Z.of_nat (length xs + 1)) (-1))
    with (Z.of_nat (length xs) - 1) by lia.
  destruct (Z.ltb_spec (-1) (Z.of_nat (length xs) - 1)).
  - replace (Z.to_nat _) with (length xs).
    + rewrite gather_down by (rewrite length_app; lia).
      by rewrite take_app_length.
    + rewrite Z.div_1_r. lia.
  - destruct xs; [done|]. exfalso. simpl in *. lia.
Qed.

Lemma mirror_nil : mirror (@nil A) = [].
Proof. done. Qed.

(** [xs[:-1]]. *)
Lemma slice_init xs x : Py.slice None (Some (-1)) 1 (xs ++ [x]) = xs.
Proof.
  unfold Py.slice, Py.slice_indices, Py.adjust_bound, Py.slice_length.
  rewrite length_app. simpl.
  replace (Z.max (-1 + Z.of_nat (length xs + 1)) 0)
    with (Z.of_nat (length xs)) by lia.
  destruct (Z.ltb_spec 0 (Z.of_nat (length xs))).
  - replace (Z.to_nat _) with (length xs).
    + rewrite (gather_up _ _ 0) by (rewrite length_app; lia).
      by rewrite drop_0, take_app_length.
    + rewrite Z.div_1_r. lia.
  - destruct xs; [done|]. exfalso. simpl in *. lia.
Qed.

(** [xs[1:]]. *)
Lemma slice_tail xs x : Py.slice (Some 1) None 1 (x :: xs) = xs.
Proof.
  unfold Py.slice, Py.slice_indices, Py.adjust_bound, Py.slice_length.
  cbn [length Z.eqb Z.ltb Z.compare].
  replace (Z.min 1 (Z.of_nat (S (length xs)))) with 1 by lia.
  destruct (Z.ltb_spec 1 (Z.of_nat (S (length xs)))).
  - replace (Z.to_nat _) with (length xs).
    + rewrite (gather_up _ _ 1) by (simpl; lia).
      simpl. by rewrite drop_0, firstn_all.
    + rewrite Z.div_1_r. lia.
  - destruct xs; [done|]. exfalso. simpl in *. lia.
Qed.

(** [xs[-1]] of a non-empty list. *)
Lemma getitem_last xs x : Py.getitem (xs ++ [x]) (-1) = inr x.
Proof.
  unfold Py.getitem. rewrite length_app. simpl.
  replace (_ || _) with false.
  - replace (Z.to_nat _) with (length xs) by lia.
    by rewrite list_lookup_middle.
  - symmetry. rewrite orb_false_iff, Z.ltb_ge, Z.leb_gt. lia.
Qed.

End Slices.

(** ** Construction *)

Section ConstructionFacts.
Context `{Blocks}.

Lemma enumerate_lookup {A} (xs : list A) i :
  Py.enumerate xs !! i = (λ x, (i, x)) <$> xs !! i.
Proof.
  unfold Py.enumerate. rewrite lookup_zip_with.
  destruct (xs !! i) as [x|] eqn:Hx.
  - rewrite lookup_seq_lt by (by eapply lookup_lt_Some). done.
  - by destruct (seq 0 (length xs) !! i).
Qed.

Lemma length_enumerate {A} (xs : list A) : length (Py.enumerate xs) = length xs.
Proof.
  unfold Py.enumerate. rewrite length_zip_with, length_seq. lia.
Qed.

Lemma length_zip3 {A B C} (xs : list A) (ys : list B) (zs : list C) :
  length (Py.zip3 xs ys zs) = Nat.min (Nat.min (length xs) (length ys)) (length zs).
Proof.
  revert ys zs. induction xs as [|x xs IH]; intros [|y ys] [|z zs]; simpl; try lia.
  rewrite IH. lia.
Qed.

Lemma zip3_lookup {A B C} (xs : list A) (ys : list B) (zs : list C) i x y z :
  xs !! i = Some x → ys !! i = Some y → zs !! i = Some z →
  Py.zip3 xs ys zs !! i = Some (x, y, z).
Proof.
  revert ys zs i.
  induction xs as [|x' xs IH]; intros [|y' ys] [|z' zs] [|i]; simpl; try done.
  - congruence.
  - apply IH.
Qed.

(** A construction loop over a class instantiates one block per item. *)
Lemma build_loop {B} (c : ModuleClass) (f : B → CtorArgs)
    (body : list Module → B → Init (list Module)) :
  (∀ acc x, body acc x =
     (let* block := new_block (VClass c) (f x) in ret (acc ++ [block]))) →
  ∀ xs acc,
    foldM body acc xs tt =
      (inr (acc ++ ((λ x, {| m_cls := c; m_args := f x |}) <$> xs)), tt,
       (λ x, {| m_cls := c; m_args := f x |}) <$> xs).
Proof.
  intros Hbody. induction xs as [|x xs IH]; intros acc; simpl.
  - by rewrite app_nil_r.
  - unfold bind at 1. rewrite Hbody. unfold new_block, bind, emit, ret.
    rewrite IH. simpl. by rewrite <- app_assoc.
Qed.

End ConstructionFacts.

Section InitRun.
Context `{Blocks}.

Lemma Unet_init_run in_features (up down : list Z) size setup cd cu :
  length down = S (length up) →
  setup !! "down_block" = Some (VClass cd) →
  setup !! "up_block" = Some (VClass cu) →
  ∃ pd pu,
    Unet_init in_features (Some up) (Some down) size setup tt =
      (inr {| up := up; down := down; in_features := in_features;
              path_down := pd; path_up := pu;
              n_params := fold_left (λ n param, n + numel param)
                                    (parameters pd pu) 0 |},
       tt, pd ++ pu)
    ∧ length pd = length down
    ∧ length pu = length up
    ∧ (∀ i d_in d_out,
         ([in_features] ++ down) !! i = Some d_in →
         down !! i = Some d_out →
         pd !! i = Some {| m_cls := block_class setup cd;
                           m_args := DownArgs d_in d_out size
                                       ("down_" +:+ pretty i) setup
                                       (i =? 0)%nat |})
    ∧ (∀ i d_last d_bot d_hor d_out,
         last down = Some d_last →
         ([d_last] ++ up) !! i = Some d_bot →
         down !! (length down - 2 - i)%nat = Some d_hor →
         up !! i = Some d_out →
         pu !! i = Some {| m_cls := block_class setup cu;
                           m_args := UpArgs d_bot d_hor d_out size
                                       ("up_" +:+ pretty i) setup |}).
Proof.
  intros Hlen Hd Hu.
  destruct down as [|dl ds _] using rev_ind; [done|].
  rewrite length_app in Hlen. simpl in Hlen.
  unfold Unet_init.
  replace (length (ds ++ [dl]) =? length up + 1)%nat with true
    by (symmetry; apply Nat.eqb_eq; rewrite length_app; simpl; lia).
  cbn [negb].
  change ([in_features] ++ ds ++ [dl]) with ((in_features :: ds) ++ [dl]) at 1 3.
  rewrite slice_init, mirror_snoc.
  change ([in_features] ++ ds ++ [dl]) with (in_features :: (ds ++ [dl])) at 1.
  rewrite slice_tail, getitem_last.
  set (fd := λ x : nat * (Z * Z),
         let '(i, (d_in, d_out)) := x in
         DownArgs d_in d_out size ("down_" +:+ pretty i) setup (i =? 0)%nat).
  set (fu := λ x : nat * (Z * Z * Z),
         let '(i, (d_bot, d_hor, d_out)) := x in
         UpArgs d_bot d_hor d_out size ("up_" +:+ pretty i) setup).
  set (xd := Py.enumerate (zip (in_features :: ds) (ds ++ [dl]))).
  set (xu := Py.enumerate (Py.zip3 ([dl] ++ up) (reverse (in_features :: ds)) up)).
  exists ((λ x, {| m_cls := block_class setup cd; m_args := fd x |}) <$> xd),
         ((λ x, {| m_cls := block_class setup cu; m_args := fu x |}) <$> xu).
  split; [|split; [|split; [|split]]].
  - unfold bind at 1. unfold getkey at 1. rewrite Hd. cbn [ret].
    unfold bind at 1. unfold getkey at 1. rewrite Hu. cbn [ret].
    unfold bind at 1.
    assert (Hsel :
      (if wants_checkpoint setup
       then let* UpBlock := checkpointed (VClass cu) in
            let* DownBlock := checkpointed (VClass cd) in
            ret (UpBlock, DownBlock)
       else ret (VClass cu, VClass cd)) tt =
      (inr (VClass (block_class setup cu), VClass (block_class setup cd)), tt,
       @nil Module)).
    { unfold block_class. by destruct (wants_checkpoint setup). }
    rewrite Hsel. clear Hsel.
    unfold bind at 1.
    rewrite (build_loop (block_class setup cd) fd)
      by (by intros acc [i [d_in d_out]]).
    unfold bind at 1. unfold lift at 1.
    unfold bind at 1.
    rewrite (build_loop (block_class setup cu) fu)
      by (by intros acc [i [[d_bot d_hor] d_out]]).
    cbn [ret app]. by rewrite !app_nil_r.
  - rewrite length_fmap. subst xd. rewrite length_enumerate, length_zip_with.
    rewrite !length_app. cbn [length]. lia.
  - rewrite length_fmap. subst xu. rewrite length_enumerate, length_zip3.
    rewrite length_reverse, !length_app. cbn [length]. lia.
  - intros i d_in d_out Hin Hout.
    rewrite list_lookup_fmap. subst xd. rewrite enumerate_lookup.
    rewrite lookup_zip_with.
    change ([in_features] ++ ds ++ [dl]) with (in_features :: (ds ++ [dl])) in Hin.
    assert (Hin' : (in_features :: ds) !! i = Some d_in).
    { apply lookup_lt_Some in Hout. rewrite length_app in Hout. simpl in Hout.
      rewrite <- Hin.
      change (in_features :: ds ++ [dl]) with ((in_features :: ds) ++ [dl]).
      rewrite lookup_app_l; [done|]. simpl. lia. }
    rewrite Hin', Hout. done.
  - intros i d_last d_bot d_hor d_out Hlast Hbot Hhor Hout.
    rewrite last_snoc in Hlast. injection Hlast as <-.
    rewrite list_lookup_fmap. subst xu. rewrite enumerate_lookup.
    assert (Hi : (i < length up)%nat) by (by eapply lookup_lt_Some).
    erewrite zip3_lookup; [done| exact Hbot | | exact Hout].
    rewrite reverse_lookup by (simpl; lia).
    rewrite length_app in Hhor. cbn [length] in *.
    replace (S (length ds) - S i)%nat with (S (length ds + 1 - 2 - i)) by lia.
    rewrite lookup_cons. rewrite <- Hhor. symmetry. apply lookup_app_l. lia.
Qed.
End InitRun.

(** ** The forward pass *)

Section ForwardFacts.
Context `{Blocks}.

Lemma stage_calls_app (l1 l2 : list Event) :
  stage_calls (l1 ++ l2) = stage_calls l1 ++ stage_calls l2.
Proof. apply omap_app. Qed.

(** Whatever the wrapping, a class computes what its base class
    computes, and emits only [Recompute] events. *)
Lemma class_forward_run cls self args kwargs e :
  ∃ evs,
    class_forward cls self args kwargs e =
      (inr (block_forward (base_name cls) self args kwargs e).1,
       (block_forward (base_name cls) self args kwargs e).2, evs)
    ∧ stage_calls evs = [].
Proof.
  induction cls as [name|c IH]; simpl.
  - exists []. by destruct (block_forward name self args kwargs e).
  - destruct IH as (evs & Hrun & Hevs).
    unfold Checkpointed_forward. destruct (existsb tracks_grad args).
    + exists (Recompute args :: evs). unfold checkpoint, bind, emit.
      by rewrite Hrun.
    + by exists evs.
Qed.

Lemma call_run layer args e :
  ∃ evs,
    call layer args e =
      (inr (block_run layer args e).1, (block_run layer args e).2, evs)
    ∧ stage_calls evs = [(layer, args, (block_run layer args e).1)].
Proof.
  destruct (class_forward_run (m_cls layer) (m_args layer) args [] e)
    as (evs & Hrun & Hevs).
  exists (evs ++ [Called layer args (block_run layer args e).1]).
  unfold call, bind, emit, ret. rewrite Hrun. split; [done|].
  by rewrite stage_calls_app, Hevs.
Qed.

Lemma encode_loop layers : ∀ feats x0 e,
  last feats = Some x0 →
  ∃ outs e' evs,
    foldM encode_step feats layers e = (inr (feats ++ outs), e', evs)
    ∧ length outs = length layers
    ∧ stage_calls evs =
        zip_with (λ layer xy, (layer, [ATensor xy.1], xy.2))
                 layers (zip (x0 :: outs) outs)
    ∧ Forall produced (stage_calls evs).
Proof.
  induction layers as [|layer layers IH]; intros feats x0 e Hlast.
  - exists [], e, []. simpl. rewrite app_nil_r. by repeat split.
  - apply last_Some in Hlast as [feats' ->].
    destruct (call_run layer [ATensor x0] e) as (evs1 & Hcall & Hevs1).
    set (y := (block_run layer [ATensor x0] e).1) in *.
    destruct (IH ((feats' ++ [x0]) ++ [y]) y (block_run layer [ATensor x0] e).2)
      as (outs & e' & evs2 & Hrun & Hlen & Hcalls & Hprod);
      [by rewrite last_snoc|].
    exists (y :: outs), e', (evs1 ++ evs2).
    split; [|split; [|split]].
    + simpl. unfold bind at 1. unfold encode_step at 1.
      unfold bind at 1. unfold lift at 1. rewrite getitem_last.
      unfold bind at 1. rewrite Hcall. unfold ret at 1.
      rewrite Hrun. simpl. rewrite app_nil_r.
      by rewrite <- (app_assoc _ [y] outs).
    + simpl. by rewrite Hlen.
    + rewrite stage_calls_app, Hevs1, Hcalls. done.
    + rewrite stage_calls_app, Hevs1. apply Forall_app. split; [|done].
      apply Forall_singleton. by exists e.
Qed.

Lemma decode_loop pairs : ∀ b0 e,
  ∃ gs e' evs,
    foldM decode_step b0 pairs e = (inr (default b0 (last gs)), e', evs)
    ∧ length gs = length pairs
    ∧ stage_calls evs =
        zip_with (λ lh bg, (lh.1, [ATensor bg.1; ATensor lh.2], bg.2))
                 pairs (zip (b0 :: gs) gs)
    ∧ Forall produced (stage_calls evs).
Proof.
  induction pairs as [|[layer h] pairs IH]; intros b0 e.
  - exists [], e, []. by repeat split.
  - destruct (call_run layer [ATensor b0; ATensor h] e) as (evs1 & Hcall & Hevs1).
    set (g := (block_run layer [ATensor b0; ATensor h] e).1) in *.
    destruct (IH g (block_run layer [ATensor b0; ATensor h] e).2)
      as (gs & e' & evs2 & Hrun & Hlen & Hcalls & Hprod).
    exists (g :: gs), e', (evs1 ++ evs2).
    split; [|split; [|split]].
    + cbn [foldM]. unfold bind at 1.
      change (decode_step b0 (layer, h)) with (call layer [ATensor b0; ATensor h]).
      rewrite Hcall, Hrun. f_equal. f_equal. f_equal.
      destruct gs as [|g' gs] using rev_ind; [done|].
      by rewrite !last_cons, !last_snoc.
    + simpl. by rewrite Hlen.
    + rewrite stage_calls_app, Hevs1, Hcalls. done.
    + rewrite stage_calls_app, Hevs1. apply Forall_app. split; [|done].
      apply Forall_singleton. by exists e.
Qed.

End ForwardFacts.

Section ForwardRun.
Context `{Blocks}.

Lemma trace_snoc (inp : Tensor) fs :
  ∃ init, inp :: fs = init ++ [default inp (last fs)].
Proof.
  destruct fs as [|x fs _] using rev_ind.
  - by exists [].
  - exists (inp :: fs). by rewrite last_snoc.
Qed.

(** The forward pass of any network on an input with the expected
    channel count: encoder outputs [fs], decoder outputs [gs], and the
    block calls in the order they happen. *)
Lemma forward_run self inp e :
  size inp 1 = in_features self →
  ∃ fs gs e' evs,
    forward self inp e =
      (inr (default (default inp (last fs)) (last gs)), e', evs)
    ∧ length fs = length (path_down self)
    ∧ length gs = length (zip (path_up self) (mirror (inp :: fs)))
    ∧ stage_calls evs =
        zip_with (λ layer xy, (layer, [ATensor xy.1], xy.2))
                 (path_down self) (zip (inp :: fs) fs)
        ++ zip_with (λ lh bg, (lh.1, [ATensor bg.1; ATensor lh.2], bg.2))
                    (zip (path_up self) (mirror (inp :: fs)))
                    (zip (default inp (last fs) :: gs) gs)
    ∧ Forall produced (stage_calls evs).
Proof.
  intros Hsize. unfold forward.
  rewrite Hsize, Z.eqb_refl. cbn [negb].
  destruct (encode_loop (path_down self) [inp] inp e eq_refl)
    as (fs & e1 & evs1 & Henc & Hlen1 & Hcalls1 & Hprod1).
  destruct (decode_loop (zip (path_up self) (mirror (inp :: fs)))
              (default inp (last fs)) e1)
    as (gs & e2 & evs2 & Hdec & Hlen2 & Hcalls2 & Hprod2).
  exists fs, gs, e2, (evs1 ++ evs2).
  split; [|split; [|split; [|split]]]; try done.
  - unfold bind at 1. unfold encode. rewrite Henc.
    unfold bind at 1. unfold lift at 1.
    destruct (trace_snoc inp fs) as [init Hinit].
    change ([inp] ++ fs) with (inp :: fs).
    rewrite Hinit at 1. rewrite getitem_last.
    unfold decode. rewrite Hdec. simpl. done.
  - by rewrite stage_calls_app, Hcalls1, Hcalls2.
  - rewrite stage_calls_app. by apply Forall_app.
Qed.

End ForwardRun.

Section Wiring.
Context `{Blocks}.

(** Index form of [forward_run] for a network with fewer decoder than
    encoder stages: who receives what, call by call. *)
Lemma forward_calls self inp e :
  size inp 1 = in_features self →
  (length (path_up self) < length (path_down self))%nat →
  ∃ fs gs out,
    let calls := stage_calls (events (forward self inp e)) in
    let D := length (path_down self) in
    result (forward self inp e) = inr out
    ∧ length fs = D
    ∧ length gs = length (path_up self)
    ∧ length calls = (D + length (path_up self))%nat
    ∧ (∀ j layer, path_down self !! j = Some layer →
         ∃ x y, (inp :: fs) !! j = Some x ∧ fs !! j = Some y
                ∧ calls !! j = Some (layer, [ATensor x], y))
    ∧ (∀ i layer, path_up self !! i = Some layer →
         ∃ b h g, (fs ++ gs) !! (D - 1 + i)%nat = Some b
                  ∧ fs !! (D - 2 - i)%nat = Some h
                  ∧ gs !! i = Some g
                  ∧ calls !! (D + i)%nat = Some (layer, [ATensor b; ATensor h], g))
    ∧ last (fs ++ gs) = Some out
    ∧ Forall produced calls.
Proof.
  intros Hsize Hlt.
  destruct (forward_run self inp e Hsize)
    as (fs & gs & e' & evs & Hrun & Hfs & Hgs & Hcalls & Hprod).
  exists fs, gs, (default (default inp (last fs)) (last gs)).
  rewrite Hrun. unfold events, result. cbn [fst snd].
  destruct fs as [|fl fs' _] using rev_ind; [simpl in Hfs; lia|].
  rewrite length_app in Hfs. cbn [length] in Hfs.
  change (inp :: fs' ++ [fl]) with ((inp :: fs') ++ [fl]) in *.
  rewrite mirror_snoc in *. rewrite last_snoc in *.
  cbn [default from_option id] in *.
  assert (Hmir : length (reverse (inp :: fs')) = length (path_down self))
    by (rewrite length_reverse; cbn [length]; lia).
  rewrite length_zip_with in Hgs.
  assert (Hgs' : length gs = length (path_up self)) by lia.
  assert (HlenA :
    length (zip_with (λ (layer : Module) (xy : Tensor * Tensor),
                        (layer, [ATensor xy.1], xy.2))
              (path_down self) (zip ((inp :: fs') ++ [fl]) (fs' ++ [fl])))
    = length (path_down self)).
  { rewrite !length_zip_with, !length_app. cbn [length]. lia. }
  split; [done|]. split; [rewrite length_app; cbn [length]; lia|].
  split; [done|]. split.
  { rewrite Hcalls, length_app, HlenA, !length_zip_with. cbn [length]. lia. }
  split; [|split; [|split]].
  - intros j layer Hlayer.
    assert (Hj : (j < length (fs' ++ [fl]))%nat)
      by (apply lookup_lt_Some in Hlayer; rewrite length_app; cbn [length]; lia).
    destruct (lookup_lt_is_Some_2 (fs' ++ [fl]) j Hj) as [y Hy].
    destruct (lookup_lt_is_Some_2 ((inp :: fs') ++ [fl]) j) as [x Hx].
    { rewrite length_app in *. cbn [length] in *. lia. }
    exists x, y. split; [done|]. split; [done|].
    rewrite Hcalls, lookup_app_l by (rewrite HlenA; by eapply lookup_lt_Some).
    rewrite lookup_zip_with, Hlayer. cbn [mbind option_bind].
    by rewrite lookup_zip_with, Hx, Hy.
  - intros i layer Hlayer.
    assert (Hi : (i < length (path_up self))%nat) by (by eapply lookup_lt_Some).
    destruct (lookup_lt_is_Some_2 fs' (length (path_down self) - 2 - i)) as [h Hh];
      [lia|].
    destruct (lookup_lt_is_Some_2 gs i) as [g Hg]; [lia|].
    destruct (lookup_lt_is_Some_2 (fl :: gs) i) as [b Hb]; [cbn [length]; lia|].
    exists b, h, g. split; [|split; [|split]].
    + rewrite <- app_assoc. rewrite lookup_app_r by lia.
      replace (length (path_down self) - 1 + i - length fs')%nat with i by lia.
      done.
    + rewrite lookup_app_l by lia. done.
    + done.
    + rewrite Hcalls, lookup_app_r by (rewrite HlenA; lia).
      rewrite HlenA.
      replace (length (path_down self) + i - length (path_down self))%nat
        with i by lia.
      assert (Hlh : zip (path_up self) (reverse (inp :: fs')) !! i = Some (layer, h)).
      { rewrite lookup_zip_with, Hlayer. cbn [mbind option_bind].
        rewrite reverse_lookup by (cbn [length]; lia). cbn [length].
        replace (S (length fs') - S i)%nat
          with (S (length (path_down self) - 2 - i)) by lia.
        by rewrite lookup_cons, Hh. }
      assert (Hbg : zip (fl :: gs) gs !! i = Some (b, g))
        by (by rewrite lookup_zip_with, Hb, Hg).
      by rewrite lookup_zip_with, Hlh, Hbg.
  - destruct gs as [|gl gs' _] using rev_ind.
    + by rewrite app_nil_r, last_snoc.
    + by rewrite app_assoc, !last_snoc.
  - exact Hprod.
Qed.

End Wiring.


(** ** Construction: validation *)

Section Validation.
Context `{Blocks}.

(** C3. Given two lists, construction raises [ValueError] exactly when
    [len(down) != len(up) + 1], and then no block has been instantiated
    (the log of instantiations is empty).  Configurations are arbitrary:
    a missing or ill-typed entry raises another exception, later. *)
Theorem schedule_mismatch_iff_ValueError
    in_features (up down : list Z) ksize setup :
  ((∃ msg, result (Unet_init in_features (Some up) (Some down) ksize setup tt)
           = inl (Py.ValueError msg))
   ↔ length down ≠ S (length up))
  ∧ (∀ msg, result (Unet_init in_features (Some up) (Some down) ksize setup tt)
            = inl (Py.ValueError msg) →
            events (Unet_init in_features (Some up) (Some down) ksize setup tt) = []).
Proof.
  assert (Hbad : length down ≠ S (length up) →
    Unet_init in_features (Some up) (Some down) ksize setup tt =
      (inl (Py.ValueError "`down` must be 1 item longer than `up`"), tt, [])).
  { intros Hne. unfold Unet_init.
    replace (length down =? length up + 1)%nat with false; [done|].
    symmetry. apply Nat.eqb_neq. lia. }
  assert (Hgood : length down = S (length up) →
    ∀ msg, result (Unet_init in_features (Some up) (Some down) ksize setup tt)
           ≠ inl (Py.ValueError msg)).
  { intros Hlen msg. unfold Unet_init.
    replace (length down =? length up + 1)%nat with true
      by (symmetry; apply Nat.eqb_eq; lia).
    cbn [negb]. unfold bind at 1, getkey at 1.
    destruct (setup !! "down_block") as [vd|]; [|done]. cbn [ret].
    unfold bind at 1, getkey at 1.
    destruct (setup !! "up_block") as [vu|]; [|done]. cbn [ret].
    destruct down as [|dl ds _] using rev_ind; [done|].
    change ([in_features] ++ ds ++ [dl]) with ((in_features :: ds) ++ [dl]) at 1 3.
    rewrite slice_init, mirror_snoc.
    change ([in_features] ++ ds ++ [dl]) with (in_features :: (ds ++ [dl])) at 1.
    rewrite slice_tail, getitem_last.
    assert (Hzip : ∃ p ps, Py.enumerate (zip (in_features :: ds) (ds ++ [dl]))
                           = (0%nat, p) :: ps).
    { destruct ds; simpl; eauto. }
    destruct Hzip as (p & ps & ->).
    unfold bind at 1.
    destruct (wants_checkpoint setup).
    - destruct vu as [cu|bu]; [|done]. destruct vd as [cd|bd]; [|done].
      unfold bind at 1. unfold checkpointed at 1. cbn [ret].
      unfold bind at 1. unfold checkpointed at 1. cbn [ret].
      unfold bind at 1.
      rewrite (build_loop (Checkpointed cd)
                 (λ x : nat * (Z * Z), let '(i, (d_in, d_out)) := x in
                    DownArgs d_in d_out ksize ("down_" +:+ pretty i) setup (i =? 0)%nat))
        by (by intros acc [i [d_in d_out]]).
      unfold bind at 1, lift at 1. unfold bind at 1.
      rewrite (build_loop (Checkpointed cu)
                 (λ x : nat * (Z * Z * Z), let '(i, (d_bot, d_hor, d_out)) := x in
                    UpArgs d_bot d_hor d_out ksize ("up_" +:+ pretty i) setup))
        by (by intros acc [i [[d_bot d_hor] d_out]]).
      done.
    - cbn [ret]. destruct vd as [cd|bd].
      + unfold bind at 1.
        rewrite (build_loop cd
                   (λ x : nat * (Z * Z), let '(i, (d_in, d_out)) := x in
                      DownArgs d_in d_out ksize ("down_" +:+ pretty i) setup (i =? 0)%nat))
          by (by intros acc [i [d_in d_out]]).
        unfold bind at 1, lift at 1. unfold bind at 1.
        destruct vu as [cu|bu].
        * rewrite (build_loop cu
                     (λ x : nat * (Z * Z * Z), let '(i, (d_bot, d_hor, d_out)) := x in
                        UpArgs d_bot d_hor d_out ksize ("up_" +:+ pretty i) setup))
            by (by intros acc [i [[d_bot d_hor] d_out]]).
          done.
        * destruct (Py.enumerate _) as [|[i [[d_bot d_hor] d_out]] rest]; done.
      + destruct p as [d_in d_out]. done.
  }
  split; [split|].
  - intros [msg Hmsg] Hlen. by apply (Hgood Hlen msg).
  - intros Hne. rewrite (Hbad Hne). by eexists.
  - intros msg Hmsg.
    destruct (decide (length down = S (length up))) as [Hlen|Hne].
    + by destruct (Hgood Hlen msg).
    + by rewrite (Hbad Hne).
Qed.

(** C10. With [down] left at its default [None], or [down] given and
    [up] left at [None], construction raises the [TypeError] of [len],
    whatever the other arguments, and instantiates nothing. *)
Theorem missing_schedule_TypeError in_features ksize setup :
  (∀ up, Unet_init in_features up None ksize setup tt =
         (inl (Py.TypeError "object of type 'NoneType' has no len()"), tt, []))
  ∧ (∀ down, Unet_init in_features None (Some down) ksize setup tt =
             (inl (Py.TypeError "object of type 'NoneType' has no len()"), tt, [])).
Proof. split; [by intros [up|]|done]. Qed.

End Validation.


(** ** Construction: the two paths *)

Section Shape.
Context `{Blocks}.

Lemma valid_setup_classes setup :
  valid_setup setup = true →
  ∃ cd cu, setup !! "down_block" = Some (VClass cd)
           ∧ setup !! "up_block" = Some (VClass cu).
Proof.
  unfold valid_setup. intros Hv.
  destruct (setup !! "down_block") as [[cd|]|]; try done.
  destruct (setup !! "up_block") as [[cu|]|]; try done.
  by exists cd, cu.
Qed.

(** What [xs[-2::-1]] holds when [xs] is [x0] followed by [D >= 1]
    further elements [ys]: [D] entries, the first [D-1] of them the
    elements of [ys] before its last one, backwards, and then [x0]. *)
Lemma mirror_index {A} (x0 : A) (ys : list A) :
  ys ≠ [] →
  length (mirror ([x0] ++ ys)) = length ys
  ∧ (∀ i, (i + 1 < length ys)%nat →
       mirror ([x0] ++ ys) !! i = ys !! (length ys - 2 - i)%nat)
  ∧ mirror ([x0] ++ ys) !! (length ys - 1)%nat = Some x0.
Proof.
  intros Hne. destruct ys as [|yl ys' _] using rev_ind; [done|].
  change ([x0] ++ ys' ++ [yl]) with ((x0 :: ys') ++ [yl]).
  rewrite mirror_snoc, length_reverse, length_app. cbn [length].
  split; [lia|]. split.
  - intros i Hi. rewrite reverse_lookup by (cbn [length]; lia). cbn [length].
    replace (S (length ys') - S i)%nat with (S (length ys' + 1 - 2 - i)) by lia.
    rewrite lookup_cons. symmetry. apply lookup_app_l. lia.
  - rewrite reverse_lookup by (cbn [length]; lia). cbn [length].
    by replace (S (length ys') - S (length ys' + 1 - 1))%nat with 0%nat by lia.
Qed.

(** C4. A schedule pair with [len(down) == len(up) + 1] and a
    configuration whose block entries are classes always builds: one
    encoder block per entry of [down], with the channel counts of
    consecutive entries of [[in_features] + down] and [is_first] at
    index 0 only, and one decoder block per entry of [up], although
    [hor_dims] has as many entries as [down].  The blocks instantiated are
    exactly those of the two paths, encoder first. *)
Theorem construction_shape in_features (up down : list Z) ksize setup :
  length down = S (length up) →
  valid_setup setup = true →
  ∃ net cd cu,
    Unet_init in_features (Some up) (Some down) ksize setup tt
      = (inr net, tt, path_down net ++ path_up net)
    ∧ setup !! "down_block" = Some (VClass cd)
    ∧ setup !! "up_block" = Some (VClass cu)
    ∧ length (path_down net) = length down
    ∧ length (path_up net) = length up
    ∧ length (mirror ([in_features] ++ down)) = length down
    ∧ (∀ i d_in d_out,
         ([in_features] ++ down) !! i = Some d_in →
         down !! i = Some d_out →
         path_down net !! i =
           Some {| m_cls := block_class setup cd;
                   m_args := DownArgs d_in d_out ksize ("down_" +:+ pretty i)
                                      setup (i =? 0)%nat |})
    ∧ (∀ i d_last d_bot d_hor d_out,
         last down = Some d_last →
         ([d_last] ++ up) !! i = Some d_bot →
         down !! (length down - 2 - i)%nat = Some d_hor →
         up !! i = Some d_out →
         path_up net !! i =
           Some {| m_cls := block_class setup cu;
                   m_args := UpArgs d_bot d_hor d_out ksize ("up_" +:+ pretty i)
                                    setup |}).
Proof.
  intros Hlen Hvalid.
  destruct (valid_setup_classes setup Hvalid) as (cd & cu & Hd & Hu).
  destruct (Unet_init_run in_features up down ksize setup cd cu Hlen Hd Hu)
    as (pd & pu & Hrun & Hpd & Hpu & Hdown & Hup).
  eexists {| up := up; down := down; in_features := in_features;
             path_down := pd; path_up := pu; n_params := _ |}, cd, cu.
  rewrite Hrun. cbn [path_down path_up].
  do 5 (split; [done|]). split; [|by split].
  apply (mirror_index in_features down). by destruct down.
Qed.

Lemma fold_numel ps : ∀ acc,
  fold_left (λ n param, n + numel param) ps acc = acc + total_numel ps.
Proof.
  induction ps as [|p ps IH]; intros acc.
  - unfold total_numel. simpl. lia.
  - cbn [fold_left]. rewrite IH. unfold total_numel. rewrite fmap_cons.
    cbn [foldr]. lia.
Qed.

Lemma trainable_all ps :
  Forall (λ p, p_requires_grad p = true) ps →
  trainable_numel ps = total_numel ps.
Proof.
  unfold trainable_numel, total_numel.
  induction 1 as [|p ps Hp _ IH]; [done|].
  rewrite filter_cons_True by done. rewrite !fmap_cons. cbn [foldr].
  by rewrite IH.
Qed.

(** C8 (amended). The snapshot [n_params] taken at construction is the
    total element count of all parameters the blocks registered,
    whether or not they track gradients; it is the trainable total when
    every parameter does. *)
Theorem n_params_counts_all in_features (up down : list Z) ksize setup :
  length down = S (length up) →
  valid_setup setup = true →
  ∃ net,
    result (Unet_init in_features (Some up) (Some down) ksize setup tt) = inr net
    ∧ n_params net = total_numel (parameters (path_down net) (path_up net))
    ∧ (Forall (λ p, p_requires_grad p = true)
              (parameters (path_down net) (path_up net)) →
       n_params net = trainable_numel (parameters (path_down net) (path_up net))).
Proof.
  intros Hlen Hvalid.
  destruct (valid_setup_classes setup Hvalid) as (cd & cu & Hd & Hu).
  destruct (Unet_init_run in_features up down ksize setup cd cu Hlen Hd Hu)
    as (pd & pu & Hrun & _).
  eexists. rewrite Hrun. split; [done|]. cbn [n_params path_down path_up].
  rewrite fold_numel. split; [lia|].
  intros Hall. rewrite (trainable_all _ Hall). lia.
Qed.

End Shape.

(** ** Skip connections *)

Section Skips.
Context `{Blocks}.

Lemma encode_calls self inp e :
  ∃ fs,
    result (encode self inp e) = inr ([inp] ++ fs)
    ∧ length fs = length (path_down self)
    ∧ (∀ j layer, path_down self !! j = Some layer →
         ∃ x y, ([inp] ++ fs) !! j = Some x ∧ fs !! j = Some y
                ∧ stage_calls (events (encode self inp e)) !! j
                  = Some (layer, [ATensor x], y)).
Proof.
  destruct (encode_loop (path_down self) [inp] inp e eq_refl)
    as (fs & e1 & evs1 & Henc & Hlen & Hcalls & _).
  exists fs. unfold encode. rewrite Henc. unfold result, events. cbn [fst snd].
  split; [done|]. split; [done|].
  intros j layer Hlayer.
  assert (Hj : (j < length fs)%nat) by (rewrite Hlen; by eapply lookup_lt_Some).
  destruct (lookup_lt_is_Some_2 fs j Hj) as [y Hy].
  destruct (lookup_lt_is_Some_2 ([inp] ++ fs) j) as [x Hx];
    [rewrite length_app; cbn [length]; lia|].
  exists x, y. split; [done|]. split; [done|].
  rewrite Hcalls, lookup_zip_with, Hlayer. cbn [mbind option_bind].
  change ([inp] ++ fs) with (inp :: fs) in Hx.
  by rewrite lookup_zip_with, Hx, Hy.
Qed.

(** C1. In the forward pass of a validly constructed network, with [fs]
    the encoder outputs in stage order and [gs] the decoder outputs:
    encoder stage [j] is called on the previous entry of the trace
    (the raw input for [j = 0]); decoder stage [i] is called with
    horizontal input [fs[D-2-i]] and vertical input the previous decoder
    output, the deepest encoder output [fs[D-1]] for [i = 0]; there are
    no other block calls, and the last output is returned.  So the
    deepest encoder output is only ever a vertical input and the raw
    input only the input of encoder stage 0. *)
Theorem skip_wiring in_features (up down : list Z) ksize setup inp e :
  length down = S (length up) →
  valid_setup setup = true →
  size inp 1 = in_features →
  ∃ net fs gs out,
    let calls := stage_calls (events (forward net inp e)) in
    let D := length down in
    result (Unet_init in_features (Some up) (Some down) ksize setup tt) = inr net
    ∧ result (forward net inp e) = inr out
    ∧ length fs = D
    ∧ length gs = length up
    ∧ length calls = (D + length up)%nat
    ∧ (∀ j, (j < D)%nat →
         ∃ layer x y,
           path_down net !! j = Some layer
           ∧ (inp :: fs) !! j = Some x ∧ fs !! j = Some y
           ∧ calls !! j = Some (layer, [ATensor x], y))
    ∧ (∀ i, (i < length up)%nat →
         ∃ layer b h g,
           path_up net !! i = Some layer
           ∧ (fs ++ gs) !! (D - 1 + i)%nat = Some b
           ∧ fs !! (D - 2 - i)%nat = Some h
           ∧ gs !! i = Some g
           ∧ calls !! (D + i)%nat = Some (layer, [ATensor b; ATensor h], g))
    ∧ last (fs ++ gs) = Some out.
Proof.
  intros Hlen Hvalid Hsize.
  destruct (valid_setup_classes setup Hvalid) as (cd & cu & Hd & Hu).
  destruct (Unet_init_run in_features up down ksize setup cd cu Hlen Hd Hu)
    as (pd & pu & Hrun & Hpd & Hpu & _).
  set (net := {| up := up; down := down; in_features := in_features;
                 path_down := pd; path_up := pu;
                 n_params := fold_left (λ n param, n + numel param)
                                       (parameters pd pu) 0 |}) in *.
  destruct (forward_calls net inp e Hsize) as
    (fs & gs & out & Hout & Hfs & Hgs & Hcalls & Hdown & Hup & Hlast & _).
  { cbn [net path_up path_down]. lia. }
  cbn [net path_up path_down] in *.
  exists net, fs, gs, out. cbn zeta.
  split; [by rewrite Hrun|]. split; [done|].
  split; [lia|]. split; [lia|]. split; [lia|].
  split; [|split; [|done]].
  - intros j Hj. destruct (lookup_lt_is_Some_2 pd j) as [layer Hlayer]; [lia|].
    destruct (Hdown j layer Hlayer) as (x & y & ? & ? & ?).
    by exists layer, x, y.
  - intros i Hi. destruct (lookup_lt_is_Some_2 pu i) as [layer Hlayer]; [lia|].
    destruct (Hup i layer Hlayer) as (b & h & g & ? & ? & ? & ?).
    exists layer, b, h, g. by rewrite <- Hpd.
Qed.

(** C2 (amended). The slice [features[-2::-1]] of the trace of a validly
    constructed network has [D] entries, not [D-1]: entry [i < D-1] is
    the output of encoder stage [D-2-i], and the last entry is the raw
    input; [zip] against the [D-1] decoder blocks is what leaves the raw
    input out.  Likewise [hor_dims] has [D] entries, the reversed
    [down[:-1]] followed by [in_features]. *)
Theorem skip_slice_contents in_features (up down : list Z) ksize setup inp e :
  length down = S (length up) →
  valid_setup setup = true →
  ∃ net fs,
    let D := length down in
    result (Unet_init in_features (Some up) (Some down) ksize setup tt) = inr net
    ∧ result (encode net inp e) = inr ([inp] ++ fs)
    ∧ length fs = D
    ∧ (∀ j layer, path_down net !! j = Some layer →
         ∃ x y, ([inp] ++ fs) !! j = Some x ∧ fs !! j = Some y
                ∧ stage_calls (events (encode net inp e)) !! j
                  = Some (layer, [ATensor x], y))
    ∧ length (mirror ([inp] ++ fs)) = D
    ∧ (∀ i, (i + 1 < D)%nat → mirror ([inp] ++ fs) !! i = fs !! (D - 2 - i)%nat)
    ∧ mirror ([inp] ++ fs) !! (D - 1)%nat = Some inp
    ∧ length (zip (path_up net) (mirror ([inp] ++ fs))) = (D - 1)%nat
    ∧ length (mirror ([in_features] ++ down)) = D
    ∧ (∀ i, (i + 1 < D)%nat →
         mirror ([in_features] ++ down) !! i = down !! (D - 2 - i)%nat)
    ∧ mirror ([in_features] ++ down) !! (D - 1)%nat = Some in_features.
Proof.
  intros Hlen Hvalid.
  destruct (valid_setup_classes setup Hvalid) as (cd & cu & Hd & Hu).
  destruct (Unet_init_run in_features up down ksize setup cd cu Hlen Hd Hu)
    as (pd & pu & Hrun & Hpd & Hpu & _).
  set (net := {| up := up; down := down; in_features := in_features;
                 path_down := pd; path_up := pu;
                 n_params := fold_left (λ n param, n + numel param)
                                       (parameters pd pu) 0 |}) in *.
  destruct (encode_calls net inp e) as (fs & Henc & Hfs & Hcalls).
  cbn [net path_down] in Hfs, Hcalls.
  assert (Hne : fs ≠ []) by (intros ->; simpl in Hfs; lia).
  destruct (mirror_index inp fs Hne) as (Hm1 & Hm2 & Hm3).
  destruct (mirror_index in_features down) as (Hd1 & Hd2 & Hd3);
    [by destruct down|].
  exists net, fs. cbn zeta. cbn [net path_down path_up].
  split; [by rewrite Hrun|]. split; [done|]. split; [lia|]. split; [done|].
  rewrite <- Hpd, <- Hfs.
  split; [done|]. split; [done|]. split; [done|].
  split; [rewrite length_zip_with; lia|].
  rewrite Hfs, Hpd. done.
Qed.

(** C6. When every block returns its declared number of channels, the
    forward pass of a validly constructed network on an input with
    [in_features] channels returns an activation with [up[-1]] channels,
    or [down[-1]] channels when [up] is empty. *)
Theorem output_channels in_features (up down : list Z) ksize setup inp e :
  (∀ name self args kwargs e0,
     size (block_forward name self args kwargs e0).1 1 = channel_out self) →
  length down = S (length up) →
  valid_setup setup = true →
  size inp 1 = in_features →
  ∃ net out,
    result (Unet_init in_features (Some up) (Some down) ksize setup tt) = inr net
    ∧ result (forward net inp e) = inr out
    ∧ Py.getitem (match up with [] => down | _ => up end) (-1)
      = inr (size out 1).
Proof.
  intros Hcontract Hlen Hvalid Hsize.
  destruct (valid_setup_classes setup Hvalid) as (cd & cu & Hd & Hu).
  destruct (Unet_init_run in_features up down ksize setup cd cu Hlen Hd Hu)
    as (pd & pu & Hrun & Hpd & Hpu & Hdown & Hup).
  set (net := {| up := up; down := down; in_features := in_features;
                 path_down := pd; path_up := pu;
                 n_params := fold_left (λ n param, n + numel param)
                                       (parameters pd pu) 0 |}) in *.
  destruct (forward_calls net inp e Hsize) as
    (fs & gs & out & Hout & Hfs & Hgs & Hcalls & Hfd & Hfu & Hlast & Hprod).
  { cbn [net path_up path_down]. lia. }
  cbn [net path_up path_down] in *.
  exists net, out. split; [by rewrite Hrun|]. split; [done|].
  assert (Hchan : ∀ k layer args y,
            stage_calls (events (forward net inp e)) !! k = Some (layer, args, y) →
            size y 1 = channel_out (m_args layer)).
  { intros k layer args y Hk.
    destruct (Forall_lookup_1 _ _ _ _ Hprod Hk) as [e0 He0].
    cbn [fst snd] in He0. rewrite He0. apply Hcontract. }
  destruct down as [|dl ds _] using rev_ind; [done|].
  rewrite length_app in *. cbn [length] in *.
  destruct up as [|ul us _] using rev_ind.
  - (* no decoder stage: the output is the last encoder output *)
    destruct gs; [|exfalso; cbn [length] in *; lia]. rewrite app_nil_r in Hlast.
    destruct (lookup_lt_is_Some_2 pd (length ds)) as [layer Hlayer]; [lia|].
    destruct (Hfd _ _ Hlayer) as (x & y & _ & Hy & Hcall).
    rewrite last_lookup, Hfs in Hlast.
    replace (pred (length pd)) with (length ds) in Hlast by lia.
    assert (y = out) as -> by congruence.
    rewrite getitem_last. f_equal.
    rewrite (Hchan _ _ _ _ Hcall).
    assert (Hin : ∃ d_in, ([in_features] ++ ds ++ [dl]) !! length ds = Some d_in).
    { apply lookup_lt_is_Some_2. rewrite !length_app. cbn [length]. lia. }
    destruct Hin as [d_in Hin].
    rewrite (Hdown (length ds) d_in dl Hin) in Hlayer
      by (by rewrite list_lookup_middle).
    by injection Hlayer as <-.
  - (* the output is the last decoder output *)
    rewrite length_app in *. cbn [length] in *.
    replace (match us ++ [ul] with [] => ds ++ [dl] | _ => us ++ [ul] end)
      with (us ++ [ul]) by (by destruct us).
    destruct (lookup_lt_is_Some_2 pu (length us)) as [layer Hlayer]; [lia|].
    destruct (Hfu _ _ Hlayer) as (b & h & g & _ & _ & Hg & Hcall).
    rewrite last_lookup, length_app in Hlast.
    rewrite lookup_app_r in Hlast by lia.
    replace (pred (length fs + length gs) - length fs)%nat
      with (length us) in Hlast by lia.
    assert (g = out) as -> by congruence.
    rewrite getitem_last. f_equal.
    rewrite (Hchan _ _ _ _ Hcall).
    assert (Hbot : ∃ d_bot, ([dl] ++ us ++ [ul]) !! length us = Some d_bot).
    { apply lookup_lt_is_Some_2. rewrite !length_app. cbn [length]. lia. }
    destruct Hbot as [d_bot Hbot].
    assert (Hhor : ∃ d_hor,
              (ds ++ [dl]) !! (length ds + 1 - 2 - length us)%nat = Some d_hor).
    { apply lookup_lt_is_Some_2. rewrite !length_app. cbn [length]. lia. }
    destruct Hhor as [d_hor Hhor].
    rewrite (Hup (length us) dl d_bot d_hor ul) in Hlayer;
      [by injection Hlayer as <-|by rewrite last_snoc|done|done|
       by rewrite list_lookup_middle].
Qed.

End Skips.


(** ** The input check *)

Section InputCheck.
Context `{Blocks}.

Lemma string_app_assoc (s1 s2 s3 : string) :
  (s1 +:+ s2) +:+ s3 = s1 +:+ s2 +:+ s3.
Proof.
  induction s1 as [|c s1 IH]; [done|].
  change (String c ((s1 +:+ s2) +:+ s3) = String c (s1 +:+ s2 +:+ s3)).
  by f_equal.
Qed.

Lemma string_app_nil_r (s : string) : s +:+ "" = s.
Proof.
  induction s as [|c s IH]; [done|].
  change (String c (s +:+ "") = String c s). by f_equal.
Qed.

(** C5. On an input whose channel count differs from [in_features],
    [forward] raises [ValueError] with a message that contains both
    counts, having called no block and left the state untouched; on an
    input with the right channel count it raises nothing and returns. *)
Theorem channel_check net inp e :
  (size inp 1 ≠ in_features net →
     ∃ msg,
       forward net inp e = (inl (Py.ValueError msg), e, [])
       ∧ msg = "Expected " +:+ Py.str (in_features net) +:+
               " feature channels in input, got " +:+ Py.str (size inp 1)
       ∧ contains (Py.str (in_features net)) msg
       ∧ contains (Py.str (size inp 1)) msg)
  ∧ (size inp 1 = in_features net →
     ∃ out, result (forward net inp e) = inr out).
Proof.
  split.
  - intros Hne. eexists. unfold forward.
    replace (size inp 1 =? in_features net) with false
      by (symmetry; by apply Z.eqb_neq).
    cbn [negb]. split; [done|]. split; [done|]. split.
    + by exists "Expected "%string,
        (" feature channels in input, got " +:+ Py.str (size inp 1)).
    + exists ("Expected " +:+ Py.str (in_features net) +:+
              " feature channels in input, got "), ""%string.
      by rewrite string_app_nil_r, !string_app_assoc.
  - intros Hsize.
    destruct (forward_run net inp e Hsize) as (fs & gs & e' & evs & Hrun & _).
    rewrite Hrun. by eexists.
Qed.

End InputCheck.

(** ** The recomputation wrapper *)

Section Wrapper.
Context `{Blocks}.


End Wrapper.

(** ** Determinism *)

Section MonadRespects.
Context {S E : Type} (R : S → S → Prop).

Lemma respects_ret {A} (a : A) : respects R (ret (E := E) a).
Proof. by intros s1 s2 HR. Qed.

Lemma respects_raise {A} exc : respects R (raise (E := E) (A := A) exc).
Proof. by intros s1 s2 HR. Qed.

Lemma respects_lift {A} (r : Py.Exc + A) : respects R (lift (E := E) r).
Proof. by intros s1 s2 HR. Qed.

Lemma respects_emit (ev : E) : respects R (emit ev).
Proof. by intros s1 s2 HR. Qed.

Lemma respects_bind {A B} (m : M S E A) (f : A → M S E B) :
  respects R m → (∀ a, respects R (f a)) → respects R (bind m f).
Proof.
  intros Hm Hf s1 s2 HR. destruct (Hm s1 s2 HR) as (Hr & Hev & HR').
  unfold bind, result, events, final in *.
  destruct (m s1) as [[r1 t1] l1], (m s2) as [[r2 t2] l2]. cbn [fst snd] in *.
  subst r2 l2. destruct r1 as [exc|a]; [done|].
  destruct (Hf a t1 t2 HR') as (Hr2 & Hev2 & HR2).
  unfold result, events, final in *.
  destruct (f a t1) as [[r1' t1'] l1'], (f a t2) as [[r2' t2'] l2'].
  cbn [fst snd] in *. by subst.
Qed.

Lemma respects_foldM {A B} (body : A → B → M S E A) xs :
  (∀ acc x, respects R (body acc x)) → ∀ acc, respects R (foldM body acc xs).
Proof.
  intros Hbody. induction xs as [|x xs IH]; intros acc; cbn [foldM].
  - apply respects_ret.
  - apply respects_bind; [apply Hbody|]. intros acc'. apply IH.
Qed.

End MonadRespects.

Section Determinism.
Context `{Blocks} {P : Type} (params_of : Env → P).

(** Block code reads the state only through the parameter values ... *)
Hypothesis block_output_from_params : ∀ name self args kwargs e1 e2,
  params_of e1 = params_of e2 →
  (block_forward name self args kwargs e1).1
  = (block_forward name self args kwargs e2).1.

(** ... and a forward call leaves the parameter values as they are. *)
Hypothesis block_keeps_params : ∀ name self args kwargs e,
  params_of (block_forward name self args kwargs e).2 = params_of e.

Lemma respects_class_forward cls self args kwargs :
  respects (same_params params_of) (class_forward cls self args kwargs).
Proof.
  revert args kwargs. induction cls as [name|c IH]; intros args kwargs.
  - intros e1 e2 He. cbn [class_forward]. unfold result, events, final.
    pose proof (block_output_from_params name self args kwargs e1 e2 He) as Hout.
    pose proof (block_keeps_params name self args kwargs e1) as Hk1.
    pose proof (block_keeps_params name self args kwargs e2) as Hk2.
    destruct (block_forward name self args kwargs e1) as [o1 t1],
             (block_forward name self args kwargs e2) as [o2 t2].
    cbn [fst snd] in *. unfold same_params. split; [congruence|].
    split; [done|congruence].
  - cbn [class_forward]. unfold Checkpointed_forward.
    destruct (existsb tracks_grad args); [|apply IH].
    unfold checkpoint. apply respects_bind; [apply respects_emit|].
    intros _. apply IH.
Qed.

Lemma respects_call layer args : respects (same_params params_of) (call layer args).
Proof.
  unfold call. apply respects_bind; [apply respects_class_forward|].
  intros out. apply respects_bind; [apply respects_emit|].
  intros _. apply respects_ret.
Qed.

(** C9. When the blocks compute their output from the parameter values
    alone and leave them unchanged, two forward calls of the same
    network on the same input, from states with the same parameter
    values, have the same outcome (the same returned activation or the
    same exception) and make the same block calls. *)
Theorem forward_deterministic net inp e1 e2 :
  params_of e1 = params_of e2 →
  result (forward net inp e1) = result (forward net inp e2)
  ∧ events (forward net inp e1) = events (forward net inp e2)
  ∧ params_of (final (forward net inp e1)) = params_of (final (forward net inp e2)).
Proof.
  intros He. revert e1 e2 He.
  change (respects (same_params params_of) (forward net inp)).
  unfold forward. destruct (negb _); [apply respects_raise|].
  apply respects_bind.
  - unfold encode. apply respects_foldM. intros features layer.
    unfold encode_step. apply respects_bind; [apply respects_lift|].
    intros top. apply respects_bind; [apply respects_call|].
    intros out. apply respects_ret.
  - intros features. apply respects_bind; [apply respects_lift|].
    intros f_bot. unfold decode. apply respects_foldM.
    intros b [layer f_hor]. apply respects_call.
Qed.

End Determinism.

(** ** The model on concrete configurations *)

Example slice_mirror : Py.slice (Some (-2)) None (-1) [1; 2; 3; 4] = [3; 2; 1].
Proof. reflexivity. Qed.

Example slice_init_ex : Py.slice None (Some (-1)) 1 [1; 2; 3; 4] = [1; 2; 3].
Proof. reflexivity. Qed.

Example slice_tail_ex : Py.slice (Some 1) None 1 [1; 2; 3; 4] = [2; 3; 4].
Proof. reflexivity. Qed.

Example slice_mirror_short :
  Py.slice (Some (-2)) None (-1) [7] = [] ∧ Py.slice (Some (-2)) None (-1) (@nil Z) = [].
Proof. split; reflexivity. Qed.

Example str_ex : Py.str 16 = "16"%string ∧ Py.str (-3) = "-3"%string.
Proof. split; reflexivity. Qed.

(** The wiring test of the specification: [down = [16, 32, 64]],
    [up = [32, 16]]; decoder stage 0 gets the output of encoder stage 1,
    decoder stage 1 the output of encoder stage 0. *)
Example three_stage_forward :
  let f0 := PDown "down_0" 16 (PInput 1 false) in
  let f1 := PDown "down_1" 32 f0 in
  let f2 := PDown "down_2" 64 f1 in
  result (forward (H := probe) example_net (PInput 1 false) (0%nat, 0))
  = inr (PUp "up_1" 16 (PUp "up_0" 32 f2 f1) f0).
Proof. vm_compute. reflexivity. Qed.

Example three_stage_blocks :
  (m_cls <$> path_down example_net) = replicate 3 (BaseClass "UnetDownBlock")
  ∧ (m_cls <$> path_up example_net) = replicate 2 (BaseClass "UnetUpBlock")
  ∧ n_params example_net = 1 * 16 * 25 + 16 + 16 * 32 * 25 + 32 + 32 * 64 * 25 + 64
                           + (64 + 32) * 32 * 25 + 32 + (32 + 16) * 16 * 25 + 16.
Proof. vm_compute. repeat split; reflexivity. Qed.

Example checkpointed_single_stage :
  let setup := <["checkpointed" := VBool true]> thin_setup in
  ∃ net,
    result (Unet_init (H := probe) 1 (Some []) (Some [8]) 5 setup tt) = inr net
    ∧ (m_cls <$> path_down net) = [Checkpointed (BaseClass "ThinUnetDownBlock")]
    ∧ path_up net = []
    ∧ stage_calls (events (forward (H := probe) net (PInput 1 true) (0%nat, 0)))
      = [(({| m_cls := Checkpointed (BaseClass "ThinUnetDownBlock");
              m_args := DownArgs 1 8 5 "down_0" setup true |}),
          [ATensor (PInput 1 true)], PDown "down_0" 8 (PInput 1 true))]
    ∧ length (events (forward (H := probe) net (PInput 1 true) (0%nat, 0))) = 2%nat
    ∧ length (events (forward (H := probe) net (PInput 1 false) (0%nat, 0))) = 1%nat.
Proof. eexists. vm_compute. repeat split; reflexivity. Qed.

(** ** Instances of the theorems *)

Lemma skip_wiring_witness :
  (length [16; 32; 64] = S (length [32; 16])
   ∧ valid_setup fat_setup = true
   ∧ size (Blocks := probe) (PInput 1 false) 1 = 1)
  ∧ ∃ net out,
      result (Unet_init (H := probe) 1 (Some [32; 16]) (Some [16; 32; 64])
                        5 fat_setup tt) = inr net
      ∧ result (forward (H := probe) net (PInput 1 false) (0%nat, 0)) = inr out.
Proof.
  split; [repeat split; reflexivity|].
  destruct (skip_wiring (H := probe) 1 [32; 16] [16; 32; 64] 5 fat_setup
              (PInput 1 false) (0%nat, 0))
    as (net & fs & gs & out & Hnet & Hout & _);
    [reflexivity|reflexivity|reflexivity|].
  exists net, out. split; assumption.
Defined.

(** C2 as stated fails: for [down = [16, 32, 64]] the slice of the trace
    has 3 entries, not 2, and its last entry is the raw input; the slice
    [hor_dims] is [[32, 16, 1]], ending in [in_features]. *)
Lemma skip_slice_keeps_first_entry :
  ∃ features,
    result (encode (H := probe) example_net (PInput 1 false) (0%nat, 0))
    = inr features
    ∧ length (path_down example_net) = 3%nat
    ∧ length (mirror features) = 3%nat
    ∧ length (mirror features) ≠ (length (path_down example_net) - 1)%nat
    ∧ mirror features !! 2%nat = Some (PInput 1 false)
    ∧ mirror ([1] ++ [16; 32; 64]) = [32; 16; 1]
    ∧ length (mirror ([1] ++ [16; 32; 64])) ≠ (length [16; 32; 64] - 1)%nat.
Proof.
  eexists. split; [vm_compute; reflexivity|].
  vm_compute. repeat split; try reflexivity; discriminate.
Qed.

Lemma skip_slice_contents_witness :
  (length [16; 32; 64] = S (length [32; 16]) ∧ valid_setup fat_setup = true)
  ∧ ∃ net fs,
      result (Unet_init (H := probe) 1 (Some [32; 16]) (Some [16; 32; 64])
                        5 fat_setup tt) = inr net
      ∧ length (mirror ([PInput 1 false] ++ fs)) = 3%nat
      ∧ mirror ([PInput 1 false] ++ fs) !! 2%nat = Some (PInput 1 false).
Proof.
  split; [split; reflexivity|].
  destruct (skip_slice_contents (H := probe) 1 [32; 16] [16; 32; 64] 5 fat_setup
              (PInput 1 false) (0%nat, 0))
    as (net & fs & Hnet & _ & _ & _ & Hlen & _ & Hlast & _);
    [reflexivity|reflexivity|].
  exists net, fs. split; [assumption|]. split; assumption.
Defined.

Lemma schedule_mismatch_witness :
  length [16; 32] ≠ S (length [32; 16])
  ∧ ∃ msg, result (Unet_init (H := probe) 1 (Some [32; 16]) (Some [16; 32])
                             5 fat_setup tt) = inl (Py.ValueError msg).
Proof.
  split; [discriminate|].
  apply (proj1 (schedule_mismatch_iff_ValueError (H := probe) 1 [32; 16] [16; 32]
                  5 fat_setup)).
  discriminate.
Defined.

Lemma construction_shape_witness :
  (length [16; 32; 64] = S (length [32; 16]) ∧ valid_setup thin_setup = true)
  ∧ ∃ net,
      result (Unet_init (H := probe) 1 (Some [32; 16]) (Some [16; 32; 64])
                        5 thin_setup tt) = inr net
      ∧ length (path_down net) = 3%nat ∧ length (path_up net) = 2%nat.
Proof.
  split; [split; reflexivity|].
  destruct (construction_shape (H := probe) 1 [32; 16] [16; 32; 64] 5 thin_setup)
    as (net & cd & cu & Hrun & _ & _ & Hpd & Hpu & _);
    [reflexivity|reflexivity|].
  exists net. rewrite Hrun. split; [reflexivity|]. split; assumption.
Defined.

Lemma channel_check_witness :
  (size (Blocks := probe) (PInput 2 false) 1 ≠ in_features example_net
   ∧ size (Blocks := probe) (PInput 1 false) 1 = in_features example_net)
  ∧ (∃ msg, forward (H := probe) example_net (PInput 2 false) (0%nat, 0)
            = (inl (Py.ValueError msg), (0%nat, 0), [])
            ∧ contains "1" msg ∧ contains "2" msg)
  ∧ ∃ out, result (forward (H := probe) example_net (PInput 1 false) (0%nat, 0))
           = inr out.
Proof.
  split; [split; [discriminate|reflexivity]|].
  destruct (channel_check (H := probe) example_net (PInput 2 false) (0%nat, 0))
    as [Hbad _].
  destruct (channel_check (H := probe) example_net (PInput 1 false) (0%nat, 0))
    as [_ Hgood].
  split.
  - destruct Hbad as (msg & Hrun & _ & H1 & H2); [discriminate|].
    exists msg. split; [assumption|]. split; assumption.
  - apply Hgood. reflexivity.
Defined.

Lemma output_channels_witness :
  ((∀ name self args kwargs e0,
      size (Blocks := probe)
           (block_forward (Blocks := probe) name self args kwargs e0).1 1
      = channel_out self)
   ∧ length [16; 32; 64] = S (length [32; 16])
   ∧ valid_setup fat_setup = true
   ∧ size (Blocks := probe) (PInput 1 false) 1 = 1)
  ∧ ∃ net out,
      result (Unet_init (H := probe) 1 (Some [32; 16]) (Some [16; 32; 64])
                        5 fat_setup tt) = inr net
      ∧ result (forward (H := probe) net (PInput 1 false) (0%nat, 0)) = inr out
      ∧ Py.getitem [32; 16] (-1) = inr (size (Blocks := probe) out 1).
Proof.
  assert (Hcontract : ∀ name self args kwargs e0,
            size (Blocks := probe)
                 (block_forward (Blocks := probe) name self args kwargs e0).1 1
            = channel_out self).
  { intros name self args kwargs e0.
    destruct self; destruct args as [|[x|v] [|[y|w] [|z zs]]]; reflexivity. }
  split; [split; [exact Hcontract|repeat split; reflexivity]|].
  destruct (output_channels (H := probe) 1 [32; 16] [16; 32; 64] 5 fat_setup
              (PInput 1 false) (0%nat, 0) Hcontract)
    as (net & out & Hnet & Hout & Hchan);
    [reflexivity|reflexivity|reflexivity|].
  exists net, out. split; [exact Hnet|]. split; [exact Hout|exact Hchan].
Defined.

(** C8 as stated fails: with a block class whose weight does not track
    gradients, [n_params] is 80 while the trainable parameters hold 8
    elements. *)
Lemma n_params_counts_fixed_weight :
  ∃ net,
    result (Unet_init (H := probe) 1 (Some []) (Some [8]) 3 fixed_setup tt) = inr net
    ∧ n_params net = 80
    ∧ trainable_numel (parameters (H := probe) (path_down net) (path_up net)) = 8
    ∧ n_params net
      ≠ trainable_numel (parameters (H := probe) (path_down net) (path_up net)).
Proof.
  eexists. split; [vm_compute; reflexivity|].
  vm_compute. repeat split; try reflexivity; discriminate.
Qed.

Lemma n_params_counts_all_witness :
  (length [8] = S (length (@nil Z)) ∧ valid_setup fixed_setup = true)
  ∧ ∃ net,
      result (Unet_init (H := probe) 1 (Some []) (Some [8]) 3 fixed_setup tt) = inr net
      ∧ n_params net = total_numel (parameters (H := probe) (path_down net) (path_up net)).
Proof.
  split; [split; reflexivity|].
  destruct (n_params_counts_all (H := probe) 1 [] [8] 3 fixed_setup)
    as (net & Hnet & Htotal & _); [reflexivity|reflexivity|].
  exists net. split; assumption.
Defined.

Lemma forward_deterministic_witness :
  ((∀ name self args kwargs (e1 e2 : nat * Z),
      e1.2 = e2.2 →
      (block_forward (Blocks := probe) name self args kwargs e1).1
      = (block_forward (Blocks := probe) name self args kwargs e2).1)
   ∧ (∀ name self args kwargs (e : nat * Z),
        (block_forward (Blocks := probe) name self args kwargs e).2.2 = e.2)
   ∧ (0%nat, 7).2 = (5%nat, 7).2)
  ∧ result (forward (H := probe) example_net (PInput 1 false) (0%nat, 7))
    = result (forward (H := probe) example_net (PInput 1 false) (5%nat, 7)).
Proof.
  assert (Hout : ∀ name self args kwargs (e1 e2 : nat * Z),
            e1.2 = e2.2 →
            (block_forward (Blocks := probe) name self args kwargs e1).1
            = (block_forward (Blocks := probe) name self args kwargs e2).1)
    by (intros; reflexivity).
  assert (Hkeep : ∀ name self args kwargs (e : nat * Z),
            (block_forward (Blocks := probe) name self args kwargs e).2.2 = e.2)
    by (intros; reflexivity).
  split; [split; [exact Hout|split; [exact Hkeep|reflexivity]]|].
  apply (forward_deterministic (H := probe) (P := Z) snd Hout Hkeep
           example_net (PInput 1 false) (0%nat, 7) (5%nat, 7)).
  reflexivity.
Defined.


(** * Further properties *)

(** ** Configurations and construction errors *)

Section Configurations.
Context `{Blocks}.

(** X1. The two predefined configurations agree on every key other than
    the two block entries. *)
Theorem setups_differ_in_blocks_only (key : string) :
  key ≠ "down_block"%string → key ≠ "up_block"%string →
  fat_setup !! key = thin_setup !! key.
Proof.
  intros Hd Hu. unfold fat_setup, thin_setup.
  destruct (decide (key = "gate"%string)) as [->|?]; [reflexivity|].
  destruct (decide (key = "norm"%string)) as [->|?]; [reflexivity|].
  destruct (decide (key = "upsample"%string)) as [->|?]; [reflexivity|].
  destruct (decide (key = "downsample"%string)) as [->|?]; [reflexivity|].
  destruct (decide (key = "dropout"%string)) as [->|?]; [reflexivity|].
  destruct (decide (key = "padding"%string)) as [->|?]; [reflexivity|].
  destruct (decide (key = "bias"%string)) as [->|?]; [reflexivity|].
  by rewrite !lookup_insert_ne by done.
Qed.

(** X2. With consistent schedules, a configuration without ['down_block']
    makes construction raise [KeyError('down_block')], and one with
    ['down_block'] (of any value) but without ['up_block'] raise
    [KeyError('up_block')]; no block is instantiated in either case. *)
Theorem missing_block_entry in_features (up down : list Z) ksize setup :
  length down = S (length up) →
  (setup !! "down_block" = None →
     Unet_init in_features (Some up) (Some down) ksize setup tt
     = (inl (Py.KeyError "down_block"), tt, []))
  ∧ (∀ v, setup !! "down_block" = Some v → setup !! "up_block" = None →
     Unet_init in_features (Some up) (Some down) ksize setup tt
     = (inl (Py.KeyError "up_block"), tt, [])).
Proof.
  intros Hlen. unfold Unet_init.
  replace (length down =? length up + 1)%nat with true
    by (symmetry; apply Nat.eqb_eq; lia).
  cbn [negb]. split.
  - intros Hd. unfold bind at 1, getkey at 1. by rewrite Hd.
  - intros v Hd Hu. unfold bind at 1, getkey at 1. rewrite Hd. cbn [ret].
    unfold bind at 1, getkey at 1. by rewrite Hu.
Qed.


(** X4. A single-stage network without checkpointing never uses the
    ['up_block'] entry: whatever its value, construction succeeds with
    the one encoder block and no decoder block. *)
Theorem single_stage_ignores_up_block in_features d ksize setup cd vu :
  setup !! "down_block" = Some (VClass cd) →
  setup !! "up_block" = Some vu →
  wants_checkpoint setup = false →
  ∃ net,
    Unet_init in_features (Some []) (Some [d]) ksize setup tt
    = (inr net, tt, path_down net)
    ∧ path_down net =
        [ {| m_cls := cd;
             m_args := DownArgs in_features d ksize "down_0" setup true |} ]
    ∧ path_up net = [].
Proof.
  intros Hd Hu Hck. unfold Unet_init. cbn [length Nat.eqb Nat.add negb].
  unfold bind at 1, getkey at 1. rewrite Hd. cbn [ret].
  unfold bind at 1, getkey at 1. rewrite Hu. cbn [ret].
  rewrite Hck.
  exists {| up := []; down := [d]; in_features := in_features;
            path_down := [ {| m_cls := cd;
                              m_args := DownArgs in_features d ksize "down_0"
                                                 setup true |} ];
            path_up := [];
            n_params := fold_left (λ n param, n + numel param)
                          (parameters
                             [ {| m_cls := cd;
                                  m_args := DownArgs in_features d ksize "down_0"
                                                     setup true |} ] []) 0 |}.
  split; [|split]; reflexivity.
Qed.

End Configurations.

Lemma setups_differ_in_blocks_only_witness :
  ("gate" ≠ "down_block" ∧ "gate" ≠ "up_block")%string
  ∧ fat_setup !! "gate" = thin_setup !! "gate".
Proof.
  split; [split; discriminate|].
  apply setups_differ_in_blocks_only; discriminate.
Defined.

Lemma missing_block_entry_witness :
  (length [16; 32] = S (length [16])
   ∧ (∅ : gmap string SetupVal) !! "down_block" = None)
  ∧ Unet_init (H := probe) 1 (Some [16]) (Some [16; 32]) 5 ∅ tt
    = (inl (Py.KeyError "down_block"), tt, []).
Proof.
  split; [split; reflexivity|].
  apply (missing_block_entry (H := probe) 1 [16] [16; 32] 5 ∅);
    reflexivity.
Defined.


Lemma single_stage_ignores_up_block_witness :
  let setup := <["up_block" := VBool false]> fat_setup in
  (setup !! "down_block" = Some (VClass (BaseClass "UnetDownBlock"))
   ∧ setup !! "up_block" = Some (VBool false)
   ∧ wants_checkpoint setup = false)
  ∧ ∃ net, Unet_init (H := probe) 1 (Some []) (Some [8]) 5 setup tt
           = (inr net, tt, path_down net)
           ∧ path_up net = [].
Proof.
  cbn zeta. split; [repeat split; reflexivity|].
  destruct (single_stage_ignores_up_block (H := probe) 1 8 5
              (<["up_block" := VBool false]> fat_setup)
              (BaseClass "UnetDownBlock") (VBool false))
    as (net & Hrun & _ & Hup); [reflexivity|reflexivity|reflexivity|].
  exists net. split; assumption.
Defined.

(** ** The mirroring slice *)

(** X5. For every list, also the empty and the one-element list,
    [xs[-2::-1]] is [xs[:-1]] reversed. *)
Theorem mirror_is_reversed_init {A} (xs : list A) :
  mirror xs = reverse (Py.slice None (Some (-1)) 1 xs).
Proof.
  destruct xs as [|x xs _] using rev_ind; [reflexivity|].
  by rewrite mirror_snoc, slice_init.
Qed.

(** ** Checkpointing across the network *)

Section Agreement.
Context {S E : Type}.

Lemma agree_refl {A} (m : M S E A) : agree m m.
Proof. by intros s. Qed.

Lemma agree_bind {A B} (m1 m2 : M S E A) (f1 f2 : A → M S E B) :
  agree m1 m2 → (∀ a, agree (f1 a) (f2 a)) → agree (bind m1 f1) (bind m2 f2).
Proof.
  intros Hm Hf s. destruct (Hm s) as [Hr Hs].
  unfold bind, result, final in *.
  destruct (m1 s) as [[r1 t1] l1], (m2 s) as [[r2 t2] l2]. cbn [fst snd] in *.
  subst r2 t2. destruct r1 as [exc|a]; [done|].
  destruct (Hf a t1) as [Hr2 Hs2]. unfold result, final in *.
  destruct (f1 a t1) as [[r1' t1'] l1'], (f2 a t1) as [[r2' t2'] l2'].
  cbn [fst snd] in *. by subst.
Qed.

Lemma agree_foldM {A B C} (body1 : A → B → M S E A) (body2 : A → C → M S E A)
    (R : B → C → Prop) xs ys :
  (∀ acc x y, R x y → agree (body1 acc x) (body2 acc y)) →
  Forall2 R xs ys →
  ∀ acc, agree (foldM body1 acc xs) (foldM body2 acc ys).
Proof.
  intros Hbody HR. induction HR as [|x y xs ys Hxy _ IH]; intros acc; cbn [foldM].
  - apply agree_refl.
  - apply agree_bind; [by apply Hbody|]. intros acc'. apply IH.
Qed.

Lemma emits_bind {A B} (P : E → Prop) (m : M S E A) (f : A → M S E B) :
  emits P m → (∀ a, emits P (f a)) → emits P (bind m f).
Proof.
  intros Hm Hf s. specialize (Hm s). unfold bind, events in *.
  destruct (m s) as [[[exc|a] t] l]; cbn [snd] in *; [done|].
  specialize (Hf a t). unfold events in Hf.
  destruct (f a t) as [[r t'] l']. cbn [snd] in *. by apply Forall_app.
Qed.

Lemma emits_foldM {A B} (P : E → Prop) (body : A → B → M S E A) xs :
  (∀ acc x, x ∈ xs → emits P (body acc x)) →
  ∀ acc, emits P (foldM body acc xs).
Proof.
  induction xs as [|x xs IH]; intros Hbody acc; cbn [foldM].
  - intros s. constructor.
  - apply emits_bind; [apply Hbody; by left|].
    intros acc'. apply IH. intros acc'' y Hy. apply Hbody. by right.
Qed.

End Agreement.

Section Checkpointing.
Context `{Blocks}.

(** X6. The events of a [forward] call of any class: one [Recompute] per
    layer of wrapping when some positional argument is a tensor that
    tracks gradients, and none otherwise.  Keyword arguments play no
    part, and an unwrapped class never enters [checkpoint]. *)
Theorem class_forward_events cls self args kwargs e :
  events (class_forward cls self args kwargs e)
  = if existsb tracks_grad args
    then replicate (wrap_depth cls) (Recompute args)
    else [].
Proof.
  induction cls as [name|c IH]; cbn [class_forward wrap_depth].
  - unfold events. destruct (block_forward name self args kwargs e).
    by destruct (existsb tracks_grad args).
  - unfold Checkpointed_forward. destruct (existsb tracks_grad args); [|done].
    unfold checkpoint, bind, emit. unfold events in *.
    destruct (class_forward c self args kwargs e) as [[[exc|out] e'] evs];
      cbn [snd] in *; by rewrite IH.
Qed.

Lemma agree_call layer args : agree (call layer args) (call (unwrapped layer) args).
Proof.
  intros e.
  destruct (call_run layer args e) as (evs1 & -> & _).
  destruct (call_run (unwrapped layer) args e) as (evs2 & -> & _).
  done.
Qed.

Lemma zip_unwrapped (layers : list Module) (hs : list Tensor) :
  Forall2 (λ x y : Module * Tensor, y = (unwrapped x.1, x.2))
          (zip layers hs) (zip (unwrapped <$> layers) hs).
Proof.
  revert hs. induction layers as [|layer layers IH]; intros [|h hs]; simpl;
    constructor; auto.
Qed.

(** X7. Checkpointing does not change what a network computes: the forward
    pass of any network and of the same network with every block
    unwrapped return the same outcome and leave the same state, on
    every input, mismatching ones included. *)
Theorem checkpointing_is_transparent net inp e :
  result (forward net inp e) = result (forward (unwrapped_net net) inp e)
  ∧ final (forward net inp e) = final (forward (unwrapped_net net) inp e).
Proof.
  revert e. change (agree (forward net inp) (forward (unwrapped_net net) inp)).
  unfold forward. cbn [unwrapped_net in_features].
  destruct (negb _); [apply agree_refl|].
  apply agree_bind.
  - unfold encode. cbn [path_down].
    apply (agree_foldM _ _ (λ x y, y = unwrapped x)).
    + intros features x y ->. unfold encode_step.
      apply agree_bind; [apply agree_refl|]. intros top.
      apply agree_bind; [apply agree_call|]. intros out. apply agree_refl.
    + apply Forall2_fmap_r, Forall_Forall2_diag, Forall_true. done.
  - intros features. apply agree_bind; [apply agree_refl|]. intros f_bot.
    unfold decode. cbn [path_up].
    apply (agree_foldM _ _ (λ x y, y = (unwrapped x.1, x.2))).
    + intros b [layer h] y ->. apply agree_call.
    + apply zip_unwrapped.
Qed.

(** X8. A network none of whose blocks is wrapped never enters
    [checkpoint]: every event of its forward pass is a block call. *)
Theorem plain_network_never_recomputes net inp e :
  Forall (λ m, wrap_depth (m_cls m) = 0%nat) (path_down net ++ path_up net) →
  Forall is_call (events (forward net inp e)).
Proof.
  intros Hplain. rewrite Forall_app in Hplain. destruct Hplain as [Hpd Hpu].
  assert (Hcall : ∀ layer args, wrap_depth (m_cls layer) = 0%nat →
            emits is_call (call layer args)).
  { intros layer args Hdepth e0. unfold call, bind, emit, ret.
    pose proof (class_forward_events (m_cls layer) (m_args layer) args [] e0) as Hev.
    rewrite Hdepth in Hev. unfold events in *.
    destruct (class_forward _ _ _ _ e0) as [[[exc|out] e'] evs]; cbn [snd] in *.
    - rewrite Hev. destruct (existsb tracks_grad args); constructor.
    - rewrite Hev. destruct (existsb tracks_grad args);
        repeat constructor. }
  revert e. change (emits is_call (forward net inp)).
  unfold forward. destruct (negb _); [intros e; constructor|].
  apply emits_bind.
  - unfold encode. apply emits_foldM. intros features layer Hin.
    unfold encode_step. apply emits_bind; [intros e; constructor|].
    intros top. apply emits_bind.
    + apply Hcall. by eapply Forall_forall in Hpd.
    + intros out e. constructor.
  - intros features. apply emits_bind; [intros e; constructor|].
    intros f_bot. unfold decode. apply emits_foldM.
    intros b [layer h] Hin. apply Hcall.
    apply elem_of_zip_l in Hin. by eapply Forall_forall in Hpu.
Qed.

End Checkpointing.

Lemma plain_network_never_recomputes_witness :
  Forall (λ m, wrap_depth (m_cls m) = 0%nat)
         (path_down example_net ++ path_up example_net)
  ∧ Forall (is_call (H := probe))
           (events (forward (H := probe) example_net (PInput 1 true) (0%nat, 0))).
Proof.
  assert (Hplain : Forall (λ m, wrap_depth (m_cls m) = 0%nat)
                          (path_down example_net ++ path_up example_net))
    by (vm_compute; repeat constructor).
  split; [exact Hplain|].
  exact (plain_network_never_recomputes (H := probe) example_net
           (PInput 1 true) (0%nat, 0) Hplain).
Defined.

(** ** Declared and actual channels *)

Section Channels.
Context `{Blocks}.



(** X11. When every block returns its declared number of channels, every
    block call of the forward pass of a validly constructed network
    receives tensors with exactly the channel counts the block was
    declared with (one for an encoder block; vertical, then horizontal
    for a decoder block), and returns its declared channel count. *)
Theorem calls_match_declared_channels
    in_features (up down : list Z) ksize setup inp e :
  (∀ name self args kwargs e0,
     size (block_forward name self args kwargs e0).1 1 = channel_out self) →
  length down = S (length up) →
  valid_setup setup = true →
  size inp 1 = in_features →
  ∃ net,
    result (Unet_init in_features (Some up) (Some down) ksize setup tt) = inr net
    ∧ Forall (λ c, arg_channels c.1.2 = channels_in (m_args c.1.1)
                   ∧ size c.2 1 = channel_out (m_args c.1.1))
             (stage_calls (events (forward net inp e))).
Proof.
  intros Hcontract Hlen Hvalid Hsize.
  destruct (valid_setup_classes setup Hvalid) as (cd & cu & Hd & Hu).
  destruct (Unet_init_run in_features up down ksize setup cd cu Hlen Hd Hu)
    as (pd & pu & Hrun & Hpd & Hpu & Hdown & Hup).
  set (net := {| up := up; down := down; in_features := in_features;
                 path_down := pd; path_up := pu;
                 n_params := fold_left (λ n param, n + numel param)
                                       (parameters pd pu) 0 |}) in *.
  destruct (forward_calls net inp e Hsize) as
    (fs & gs & out & Hout & Hfs & Hgs & Hcalls & Hfd & Hfu & Hlast & Hprod).
  { cbn [net path_up path_down]. lia. }
  cbn [net path_up path_down] in *.
  exists net. split; [by rewrite Hrun|].
  assert (Hchan : ∀ k layer args y,
            stage_calls (events (forward net inp e)) !! k = Some (layer, args, y) →
            size y 1 = channel_out (m_args layer)).
  { intros k layer args y Hk.
    destruct (Forall_lookup_1 _ _ _ _ Hprod Hk) as [e0 He0].
    cbn [fst snd] in He0. rewrite He0. apply Hcontract. }
  (* the encoder block at index j and its declared channels *)
  assert (Hdblock : ∀ j, (j < length down)%nat →
            ∃ d_in d_out, (in_features :: down) !! j = Some d_in
                          ∧ down !! j = Some d_out
                          ∧ pd !! j = Some {| m_cls := block_class setup cd;
                                              m_args := DownArgs d_in d_out ksize
                                                ("down_" +:+ pretty j) setup
                                                (j =? 0)%nat |}).
  { intros j Hj.
    destruct (lookup_lt_is_Some_2 (in_features :: down) j) as [d_in Hin];
      [cbn [length]; lia|].
    destruct (lookup_lt_is_Some_2 down j Hj) as [d_out Ho].
    exists d_in, d_out. split; [done|]. split; [done|]. by apply Hdown. }
  (* the encoder outputs carry the channels of [down] *)
  assert (Hfs_chan : ∀ j y, fs !! j = Some y → down !! j = Some (size y 1)).
  { intros j y Hy.
    assert (Hj : (j < length down)%nat)
      by (apply lookup_lt_Some in Hy; lia).
    destruct (Hdblock j Hj) as (d_in & d_out & _ & Ho & Hblk).
    destruct (Hfd _ _ Hblk) as (x & y' & _ & Hy' & Hcall).
    assert (y' = y) as -> by congruence.
    by rewrite (Hchan _ _ _ _ Hcall). }
  destruct down as [|dl ds _] using rev_ind; [done|].
  rewrite length_app in *. cbn [length] in *.
  (* the decoder block at index i and its declared channels *)
  assert (Hublock : ∀ i, (i < length up)%nat →
            ∃ d_bot d_hor d_out,
              (dl :: up) !! i = Some d_bot
              ∧ (ds ++ [dl]) !! (length ds + 1 - 2 - i)%nat = Some d_hor
              ∧ up !! i = Some d_out
              ∧ pu !! i = Some {| m_cls := block_class setup cu;
                                  m_args := UpArgs d_bot d_hor d_out ksize
                                    ("up_" +:+ pretty i) setup |}).
  { intros i Hi.
    destruct (lookup_lt_is_Some_2 (dl :: up) i) as [d_bot Hb];
      [cbn [length]; lia|].
    destruct (lookup_lt_is_Some_2 (ds ++ [dl]) (length ds + 1 - 2 - i))
      as [d_hor Hh]; [rewrite length_app; cbn [length]; lia|].
    destruct (lookup_lt_is_Some_2 up i Hi) as [d_out Ho].
    exists d_bot, d_hor, d_out. do 3 (split; [done|]).
    apply (Hup i dl); [by rewrite last_snoc|done|done|done]. }
  (* the decoder outputs carry the channels of [up] *)
  assert (Hgs_chan : ∀ i g, gs !! i = Some g → up !! i = Some (size g 1)).
  { intros i g Hg.
    assert (Hi : (i < length up)%nat) by (apply lookup_lt_Some in Hg; lia).
    destruct (Hublock i Hi) as (d_bot & d_hor & d_out & _ & _ & Ho & Hblk).
    destruct (Hfu _ _ Hblk) as (b & h & g' & _ & _ & Hg' & Hcall).
    assert (g' = g) as -> by congruence.
    by rewrite (Hchan _ _ _ _ Hcall). }
  apply Forall_lookup. intros k [[layer args] y] Hk. cbn [fst snd].
  split; [|by eapply Hchan].
  assert (Hklt : (k < length pd + length pu)%nat)
    by (rewrite <- Hcalls; by eapply lookup_lt_Some).
  destruct (decide (k < length pd)%nat) as [Hkd|Hku].
  - (* an encoder call *)
    destruct (Hdblock k) as (d_in & d_out & Hin & Ho & Hblk); [lia|].
    destruct (Hfd _ _ Hblk) as (x & y' & Hx & _ & Hcall).
    rewrite Hcall in Hk. injection Hk as <- <- <-.
    cbn [arg_channels omap list_omap channels_in m_args]. f_equal.
    destruct k as [|k'].
    + cbn in Hx, Hin. injection Hx as <-. injection Hin as <-. exact Hsize.
    + change (fs !! k' = Some x) in Hx.
      change ((ds ++ [dl]) !! k' = Some d_in) in Hin.
      apply Hfs_chan in Hx. rewrite Hin in Hx. by injection Hx.
  - (* a decoder call *)
    destruct (Hublock (k - length pd)%nat)
      as (d_bot & d_hor & d_out & Hb & Hh & Ho & Hblk); [lia|].
    destruct (Hfu _ _ Hblk) as (b & h & g & Hbv & Hhv & _ & Hcall).
    replace (length pd + (k - length pd))%nat with k in Hcall by lia.
    rewrite Hcall in Hk. injection Hk as <- <- <-.
    cbn [arg_channels omap list_omap channels_in m_args].
    rewrite Hpd in Hhv. apply Hfs_chan in Hhv.
    assert (d_hor = size h 1) as -> by congruence.
    f_equal.
    destruct (k - length pd)%nat as [|i'] eqn:Hi.
    + rewrite Nat.add_0_r in Hbv. rewrite lookup_app_l in Hbv by lia.
      apply Hfs_chan in Hbv.
      replace (length pd - 1)%nat with (length ds) in Hbv by lia.
      rewrite list_lookup_middle in Hbv by done.
      change (Some dl = Some d_bot) in Hb.
      injection Hbv as Hbv. injection Hb as Hb. by rewrite <- Hbv, <- Hb.
    + rewrite lookup_app_r in Hbv by lia.
      replace (length pd - 1 + S i' - length fs)%nat with i' in Hbv by lia.
      apply Hgs_chan in Hbv. change (up !! i' = Some d_bot) in Hb.
      rewrite Hb in Hbv. by injection Hbv.
Qed.

End Channels.


Lemma calls_match_declared_channels_witness :
  ((∀ name self args kwargs e0,
      size (Blocks := probe)
           (block_forward (Blocks := probe) name self args kwargs e0).1 1
      = channel_out self)
   ∧ length [16; 32; 64] = S (length [32; 16])
   ∧ valid_setup thin_setup = true
   ∧ size (Blocks := probe) (PInput 3 false) 1 = 3)
  ∧ ∃ net,
      result (Unet_init (H := probe) 3 (Some [32; 16]) (Some [16; 32; 64])
                        5 thin_setup tt) = inr net
      ∧ Forall (λ c, arg_channels (H := probe) c.1.2 = channels_in (m_args c.1.1)
                     ∧ size (Blocks := probe) c.2 1 = channel_out (m_args c.1.1))
               (stage_calls
                  (events (forward (H := probe) net (PInput 3 false) (0%nat, 0)))).
Proof.
  assert (Hcontract : ∀ name self args kwargs e0,
            size (Blocks := probe)
                 (block_forward (Blocks := probe) name self args kwargs e0).1 1
            = channel_out self).
  { intros name self args kwargs e0.
    destruct self; destruct args as [|[x|v] [|[y|w] [|z zs]]]; reflexivity. }
  split; [split; [exact Hcontract|repeat split; reflexivity]|].
  exact (calls_match_declared_channels (H := probe) 3 [32; 16] [16; 32; 64] 5
           thin_setup (PInput 3 false) (0%nat, 0) Hcontract
           eq_refl eq_refl eq_refl).
Defined.

(** ** Stage names *)

Section Names.
Context `{Blocks}.

Lemma down_name_inj (i j : nat) :
  "down_" +:+ pretty i = "down_" +:+ pretty j → i = j.
Proof. intros Heq. by apply (inj pretty), (inj (String.app "down_")). Qed.

Lemma up_name_inj (i j : nat) :
  "up_" +:+ pretty i = "up_" +:+ pretty j → i = j.
Proof. intros Heq. by apply (inj pretty), (inj (String.app "up_")). Qed.

Lemma down_name_not_up (i j : nat) :
  "down_" +:+ pretty i ≠ "up_" +:+ pretty j.
Proof.
  intros Heq. apply (f_equal (String.get 0)) in Heq. discriminate Heq.
Qed.

(** X12. The blocks of a validly constructed network carry pairwise distinct
    stage names: [down_0 .. down_(D-1)] along the encoder and
    [up_0 .. up_(D-2)] along the decoder. *)
Theorem block_names_distinct in_features (up down : list Z) ksize setup :
  length down = S (length up) →
  valid_setup setup = true →
  ∃ net,
    result (Unet_init in_features (Some up) (Some down) ksize setup tt) = inr net
    ∧ (∀ i, (i < length down)%nat →
         block_name <$> path_down net !! i = Some ("down_" +:+ pretty i))
    ∧ (∀ i, (i < length up)%nat →
         block_name <$> path_up net !! i = Some ("up_" +:+ pretty i))
    ∧ NoDup (block_name <$> (path_down net ++ path_up net)).
Proof.
  intros Hlen Hvalid.
  destruct (valid_setup_classes setup Hvalid) as (cd & cu & Hd & Hu).
  destruct (Unet_init_run in_features up down ksize setup cd cu Hlen Hd Hu)
    as (pd & pu & Hrun & Hpd & Hpu & Hdown & Hup).
  eexists {| up := up; down := down; in_features := in_features;
             path_down := pd; path_up := pu; n_params := _ |}.
  rewrite Hrun. cbn [path_down path_up]. split; [reflexivity|].
  assert (Hdn : ∀ i, (i < length down)%nat →
            block_name <$> pd !! i = Some ("down_" +:+ pretty i)).
  { intros i Hi.
    destruct (lookup_lt_is_Some_2 ([in_features] ++ down) i) as [d_in Hin];
      [rewrite length_app; cbn [length]; lia|].
    destruct (lookup_lt_is_Some_2 down i Hi) as [d_out Ho].
    by rewrite (Hdown i d_in d_out Hin Ho). }
  assert (Hun : ∀ i, (i < length up)%nat →
            block_name <$> pu !! i = Some ("up_" +:+ pretty i)).
  { intros i Hi.
    destruct down as [|dl ds _] using rev_ind; [done|].
    rewrite length_app in *. cbn [length] in *.
    destruct (lookup_lt_is_Some_2 ([dl] ++ up) i) as [d_bot Hb];
      [rewrite length_app; cbn [length]; lia|].
    destruct (lookup_lt_is_Some_2 (ds ++ [dl]) (length ds + 1 - 2 - i))
      as [d_hor Hh]; [rewrite length_app; cbn [length]; lia|].
    destruct (lookup_lt_is_Some_2 up i Hi) as [d_out Ho].
    rewrite (Hup i dl d_bot d_hor d_out); [done|by rewrite last_snoc|done..]. }
  split; [done|]. split; [done|].
  apply NoDup_alt. intros i j name Hi Hj.
  rewrite list_lookup_fmap in Hi, Hj.
  assert (Hcase : ∀ k name0,
            block_name <$> (pd ++ pu) !! k = Some name0 →
            ((k < length pd)%nat ∧ name0 = "down_" +:+ pretty k)
            ∨ ((length pd ≤ k)%nat ∧ name0 = "up_" +:+ pretty (k - length pd)%nat)).
  { intros k name0 Hk.
    destruct (decide (k < length pd)%nat) as [Hlt|Hge].
    - left. split; [done|]. rewrite lookup_app_l in Hk by done.
      rewrite Hdn in Hk by lia. by injection Hk.
    - right. split; [lia|]. rewrite lookup_app_r in Hk by lia.
      assert ((k - length pd < length pu)%nat).
      { destruct (pu !! (k - length pd)%nat) eqn:Hl; [|done].
        by eapply lookup_lt_Some. }
      rewrite Hun in Hk by lia. by injection Hk. }
  destruct (Hcase i name Hi) as [[Hi1 Hi2]|[Hi1 Hi2]],
           (Hcase j name Hj) as [[Hj1 Hj2]|[Hj1 Hj2]]; subst name.
  - by apply down_name_inj.
  - by destruct (down_name_not_up i (j - length pd)).
  - symmetry in Hj2. by destruct (down_name_not_up j (i - length pd)).
  - apply up_name_inj in Hj2. lia.
Qed.

End Names.

Lemma block_names_distinct_witness :
  (length [16; 32; 64] = S (length [32; 16]) ∧ valid_setup fat_setup = true)
  ∧ ∃ net,
      result (Unet_init (H := probe) 1 (Some [32; 16]) (Some [16; 32; 64])
                        5 fat_setup tt) = inr net
      ∧ NoDup (block_name <$> (path_down net ++ path_up net)).
Proof.
  split; [split; reflexivity|].
  destruct (block_names_distinct (H := probe) 1 [32; 16] [16; 32; 64] 5 fat_setup)
    as (net & Hnet & _ & _ & Hnodup); [reflexivity|reflexivity|].
  exists net. split; assumption.
Defined.


(** ** Gradient-free passes *)

Section Soundness.
Context {S E : Type} (P : E → Prop).

Lemma sound_ret {A} (Q : A → Prop) a : Q a → sound (S := S) P Q (ret a).
Proof.
  intros HQ s. split; [constructor|]. intros a' Ha. by injection Ha as <-.
Qed.

Lemma sound_lift {A} (Q : A → Prop) (r : Py.Exc + A) :
  (∀ a, r = inr a → Q a) → sound (S := S) P Q (lift r).
Proof. intros HQ s. split; [constructor|]. intros a Ha. by apply HQ. Qed.

Lemma sound_bind {A B} (Q1 : A → Prop) (Q2 : B → Prop)
    (m : M S E A) (f : A → M S E B) :
  sound P Q1 m → (∀ a, Q1 a → sound P Q2 (f a)) → sound P Q2 (bind m f).
Proof.
  intros Hm Hf s. destruct (Hm s) as [Hev Hres].
  unfold bind, events, result in *.
  destruct (m s) as [[[exc|a] t] l]; cbn [fst snd] in *; [by split|].
  destruct (Hf a (Hres a eq_refl) t) as [Hev2 Hres2].
  unfold events, result in *.
  destruct (f a t) as [[r t'] l']. cbn [fst snd] in *.
  split; [by apply Forall_app|done].
Qed.

Lemma sound_foldM {A B} (I : A → Prop) (body : A → B → M S E A) xs :
  (∀ acc x, x ∈ xs → I acc → sound P I (body acc x)) →
  ∀ acc, I acc → sound P I (foldM body acc xs).
Proof.
  induction xs as [|x xs IH]; intros Hbody acc Hacc; cbn [foldM].
  - by apply sound_ret.
  - apply (sound_bind I); [apply Hbody; [by left|done]|].
    intros acc' Hacc'. apply IH; [|done].
    intros acc'' y Hy. apply Hbody. by right.
Qed.

End Soundness.

Section Inference.
Context `{Blocks}.

Lemma getitem_elem {A} (xs : list A) i x : Py.getitem xs i = inr x → x ∈ xs.
Proof.
  unfold Py.getitem. destruct (_ || _); [done|].
  destruct (xs !! _) as [y|] eqn:Hy; [|done].
  intros [= <-]. by eapply list_elem_of_lookup_2.
Qed.

Lemma mirror_elem {A} (xs : list A) x : x ∈ mirror xs → x ∈ xs.
Proof.
  destruct xs as [|y ys _] using rev_ind.
  - by rewrite mirror_nil.
  - rewrite mirror_snoc, elem_of_reverse, elem_of_app. by left.
Qed.

(** X9. When neither the input nor any block output tracks gradients, no
    forward pass enters [checkpoint], of a network with wrapped blocks
    or without: every event is a block call. *)
Theorem gradient_free_pass_never_recomputes net inp e :
  (∀ name self args kwargs e0,
     requires_grad (block_forward name self args kwargs e0).1 = false) →
  requires_grad inp = false →
  Forall is_call (events (forward net inp e)).
Proof.
  intros Hout Hinp.
  set (quiet := λ t : Tensor, requires_grad t = false).
  assert (Hcall : ∀ layer args,
            existsb tracks_grad args = false →
            sound is_call quiet (call layer args)).
  { intros layer args Hargs e0.
    pose proof (class_forward_events (m_cls layer) (m_args layer) args [] e0) as Hev.
    rewrite Hargs in Hev.
    destruct (class_forward_run (m_cls layer) (m_args layer) args [] e0)
      as (evs & Hrun & _).
    unfold call, bind, emit, ret, events, result in *. rewrite Hrun in *.
    cbn [fst snd] in *. subst evs. split.
    - repeat constructor.
    - intros out [= <-]. apply Hout. }
  assert (Hfwd : sound is_call quiet (forward net inp)); [|by destruct (Hfwd e)].
  unfold forward. destruct (negb _).
  { intros e0. split; [constructor|done]. }
  apply (sound_bind _ (Forall quiet)).
  - unfold encode. apply sound_foldM; [|by repeat constructor].
    intros features layer _ Hfeat. unfold encode_step.
    apply (sound_bind _ quiet).
    + apply sound_lift. intros top Htop.
      eapply Forall_forall; [exact Hfeat|]. by eapply getitem_elem.
    + intros top Htop. apply (sound_bind _ quiet).
      * apply Hcall. cbn. by rewrite Htop.
      * intros out Hq. apply sound_ret. apply Forall_app. by repeat constructor.
  - intros features Hfeat. apply (sound_bind _ quiet).
    + apply sound_lift. intros f_bot Hbot.
      eapply Forall_forall; [exact Hfeat|]. by eapply getitem_elem.
    + intros f_bot Hbot. unfold decode. apply sound_foldM; [|done].
      intros b [layer h] Hin Hb. apply Hcall.
      apply elem_of_zip_r, mirror_elem in Hin.
      assert (Hh : quiet h) by (by eapply Forall_forall in Hfeat).
      cbn. unfold quiet in *. by rewrite Hb, Hh.
Qed.

End Inference.

Lemma gradient_free_pass_never_recomputes_witness :
  ((∀ name self args kwargs e0,
      requires_grad (Blocks := probe_inference)
        (block_forward (Blocks := probe_inference) name self args kwargs e0).1
      = false)
   ∧ requires_grad (Blocks := probe_inference) (PInput 1 false) = false)
  ∧ Forall (is_call (H := probe_inference))
           (events (forward (H := probe_inference) checkpointed_example_net
                            (PInput 1 false) (0%nat, 0))).
Proof.
  assert (Hout : ∀ name self args kwargs e0,
            requires_grad (Blocks := probe_inference)
              (block_forward (Blocks := probe_inference) name self args kwargs e0).1
            = false).
  { intros name self args kwargs e0.
    destruct self; destruct args as [|[x|v] [|[y|w] [|z zs]]]; reflexivity. }
  split; [split; [exact Hout|reflexivity]|].
  exact (gradient_free_pass_never_recomputes (H := probe_inference)
           checkpointed_example_net (PInput 1 false) (0%nat, 0) Hout eq_refl).
Defined.

Example checkpointed_example_recomputes_with_gradients :
  (m_cls <$> path_down checkpointed_example_net)
  = replicate 3 (Checkpointed (BaseClass "ThinUnetDownBlock"))
  ∧ length (events (forward (H := probe_inference) checkpointed_example_net
                            (PInput 1 true) (0%nat, 0))) = 6%nat
  ∧ length (events (forward (H := probe_inference) checkpointed_example_net
                            (PInput 1 false) (0%nat, 0))) = 5%nat.
Proof. vm_compute. repeat split; reflexivity. Qed.
